(** * Batch-correction glue code: sphering orchestrator, best-result
      selector and correction-method registry (correct.py)

    The Python module is glue between numeric libraries (numpy, pandas,
    anndata, the zca module, scVI).  The embedding keeps every statement
    of the source functions and threads an explicit world through them;
    the delegated numeric algorithms are interfaces whose every call is
    recorded in a call log. *)

From Stdlib Require Import QArith.
From stdpp Require Import base option list strings gmap fin_maps sorting.

Local Open Scope string_scope.
Local Open Scope list_scope.
Local Open Scope nat_scope.

(** ** Python exceptions and the state/exception monad *)

Inductive exn :=
  | ValueError (msg : string)
  | KeyError (key : string)
  | IndexError (msg : string)
  | TypeError (msg : string)
  | FileNotFoundError (path : string)
  | SameFileError (path : string)
  | DataShapeError
  | LibraryError (msg : string).

Inductive result (A : Type) :=
  | Ok (a : A)
  | Err (e : exn).
Arguments Ok {A} a.
Arguments Err {A} e.

(** A computation reads and updates a state [S]; an exception keeps the
    effects made before it was raised. *)
Definition M (S A : Type) : Type := S → result A * S.

Definition ret {S A} (a : A) : M S A := λ s, (Ok a, s).
Definition raise {S A} (e : exn) : M S A := λ s, (Err e, s).
Definition bind {S A B} (c : M S A) (k : A → M S B) : M S B :=
  λ s, match c s with
       | (Ok a, s') => k a s'
       | (Err e, s') => (Err e, s')
       end.
Definition lift {S A} (r : result A) : M S A := λ s, (r, s).

#[global] Instance M_ret S : MRet (M S) := λ A, @ret S A.
#[global] Instance M_bind S : MBind (M S) := λ A B k c, bind c k.

(** ** Numeric data *)

(** A float is NaN or a number; numbers are kept as exact rationals
    (only their order, minimum and differences are inspected by the
    code, the rounding of each precision is the [round] of the numeric
    library below). *)
Inductive float :=
  | NaN
  | Num (q : Q).

Inductive dtype := Float16 | Float32 | Float64.

(** A two-dimensional numpy array: [shape = (length rows, ncols)]. *)
Record ndarray := mk_ndarray {
  adtype : dtype;
  ncols : nat;
  rows : list (list float)
}.

Definition nrows (a : ndarray) : nat := length (rows a).

Definition rect (a : ndarray) : bool :=
  forallb (λ r, length r =? ncols a) (rows a).

(** A cell of a data frame column. *)
Inductive cell :=
  | CStr (s : string)
  | CNum (x : float).

Definition float_eqb (x y : float) : bool :=
  match x, y with
  | NaN, NaN => true
  | Num p, Num q => Qeq_bool p q
  | _, _ => false
  end.

Definition cell_eqb (a b : cell) : bool :=
  match a, b with
  | CStr s, CStr t => String.eqb s t
  | CNum x, CNum y => float_eqb x y
  | _, _ => false
  end.

(** A pandas data frame: an index of [index_len] rows and named columns. *)
Record DataFrame := mk_frame {
  index_len : nat;
  columns : list (string * list cell)
}.

Definition frame_ok (df : DataFrame) : bool :=
  forallb (λ c, length (snd c) =? index_len df) (columns df).

Fixpoint assoc {A} (k : string) (l : list (string * A)) : option A :=
  match l with
  | [] => None
  | (k', v) :: l' => if String.eqb k k' then Some v else assoc k l'
  end.

(** [df[name]] *)
Definition frame_getitem (df : DataFrame) (name : string) : result (list cell) :=
  match assoc name (columns df) with
  | Some c => Ok c
  | None => Err (KeyError name)
  end.

(** [column.isin(values).values] *)
Definition isin (col : list cell) (values : list cell) : list bool :=
  map (λ c, existsb (cell_eqb c) values) col.

Fixpoint select_rows {A} (l : list A) (mask : list bool) : list A :=
  match l, mask with
  | x :: l', b :: mask' =>
      if b then x :: select_rows l' mask' else select_rows l' mask'
  | _, _ => []
  end.

(** [a[mask]] with a boolean row mask. *)
Definition mask_rows (a : ndarray) (mask : list bool) : result ndarray :=
  if length mask =? nrows a
  then Ok (mk_ndarray (adtype a) (ncols a) (select_rows (rows a) mask))
  else Err (IndexError "boolean index did not match indexed array").

(** The zero-row matrix [a[mask]] of an all-false mask. *)
Definition no_rows (a : ndarray) : ndarray :=
  mk_ndarray (adtype a) (ncols a) [].

Definition double_quote : string := String (Ascii.ascii_of_nat 34) EmptyString.

Fixpoint endswith_aux (n : nat) (s suffix : string) : bool :=
  if String.eqb s suffix then true
  else match n, s with
       | S n', String _ s' => endswith_aux n' s' suffix
       | _, _ => false
       end.
Definition endswith (s suffix : string) : bool :=
  endswith_aux (String.length s) s suffix.

(** ** pandas Series of scores and its ordering *)

(** [pd.Series]: labelled values in insertion order. *)
Abbreviation Series := (list (string * float)).

(** [s[k] = v]: an existing label keeps its position and takes the new
    value, a new label is appended. *)
Fixpoint series_setitem (s : Series) (k : string) (v : float) : Series :=
  match s with
  | [] => [(k, v)]
  | (k', v') :: s' =>
      if String.eqb k k' then (k, v) :: s' else (k', v') :: series_setitem s' k v
  end.

(** The order [sort_values()] sorts by: numbers ascending, NaN last. *)
Definition score_le (x y : float) : bool :=
  match x, y with
  | _, NaN => true
  | NaN, Num _ => false
  | Num p, Num q => Qle_bool p q
  end.

Definition tied (x y : float) : bool := score_le x y && score_le y x.

Definition entry_le (a b : string * float) : Prop := score_le a.2 b.2 = true.

(** [Series.sort_values()] delegates to numpy's argsort.  Its contract is
    an ascending rearrangement of the entries; which algorithm runs (and
    whether it keeps tied entries in order) is the library's choice, so
    the sorting function is packaged with the contract only. *)
Record Sorter := mk_sorter {
  sort_values :> Series → Series;
  sort_values_perm : ∀ s, sort_values s ≡ₚ s;
  sort_values_sorted : ∀ s, StronglySorted entry_le (sort_values s)
}.


(** Insertion sort: [e] goes in front of the first entry it is [before]. *)
Fixpoint insert_by (before : float → float → bool) (e : string * float)
    (l : Series) : Series :=
  match l with
  | [] => [e]
  | e' :: l' =>
      if before e.2 e'.2 then e :: e' :: l' else e' :: insert_by before e l'
  end.

Definition sort_by (before : float → float → bool) (s : Series) : Series :=
  foldr (insert_by before) [] s.

(** Going in front of every entry that is not smaller keeps tied entries
    in order; going in front of strictly larger entries only reverses
    them. *)
Definition before_tied (x y : float) : bool := score_le x y.
Definition before_larger (x y : float) : bool := negb (score_le y x).

(** [s.index[-1]] *)
Definition index_last (s : Series) : result string :=
  match last s with
  | Some e => Ok e.1
  | None => Err (IndexError "index -1 is out of bounds for axis 0 with size 0")
  end.

(** [column.mean()]: NaN entries are skipped, an empty selection gives
    NaN, a text cell is a type error. *)
Fixpoint numeric (col : list cell) : result (list float) :=
  match col with
  | [] => Ok []
  | CNum x :: col' =>
      match numeric col' with
      | Ok xs => Ok (x :: xs)
      | Err e => Err e
      end
  | CStr _ :: _ => Err (TypeError "could not convert string to float")
  end.

Fixpoint finite (xs : list float) : list Q :=
  match xs with
  | [] => []
  | NaN :: xs' => finite xs'
  | Num q :: xs' => q :: finite xs'
  end.

Definition Qsum (qs : list Q) : Q := foldr Qplus 0%Q qs.

Definition mean (xs : list float) : float :=
  match finite xs with
  | [] => NaN
  | qs => Num (Qsum qs / inject_Z (Z.of_nat (length qs)))%Q
  end.

Definition column_mean (col : list cell) : result float :=
  match numeric col with
  | Ok xs => Ok (mean xs)
  | Err e => Err e
  end.

(** ** The whitening library (module zca) *)

(** The ZCA estimators are not defined in correct.py: they are an
    interface with two constructors, [fit] (which returns the fitted
    estimator) and [transform]; both may raise. *)
Class ZCALib := {
  Spherer : Type;
  ZCA : float → Spherer;
  ZCA_corr : float → Spherer;
  fit : Spherer → ndarray → result Spherer;
  transform : Spherer → ndarray → result ndarray
}.

Section Pipeline.
Context {zca : ZCALib}.

(** [round dt x]: the value of [x] stored at precision [dt]. *)
Variable round : dtype → float → float.
Variable sorter : Sorter.

(** *** Files and the world *)

Inductive file :=
  | FDataset (meta : DataFrame) (vals : ndarray) (features : list string)
  | FTable (df : DataFrame)
  | FBlob (s : Spherer).

(** Calls into the libraries, in the order they are made. *)
Inductive event :=
  | EvSplitParquet (path : string)
  | EvFit (s : Spherer) (X : ndarray)
  | EvTransform (s : Spherer) (X : ndarray)
  | EvMergeParquet (meta : DataFrame) (vals : ndarray)
                   (features : list string) (path : string)
  | EvSavez (path : string) (s : Spherer)
  | EvReadParquet (path : string)
  | EvCopy (src dst : string).

Record world := mk_world {
  fs : gmap string file;
  log : list event
}.

Definition emit (e : event) : M world unit :=
  λ w, (Ok (), mk_world (fs w) (log w ++ [e])).

Definition read_file (path : string) : M world file :=
  λ w, match fs w !! path with
       | Some f => (Ok f, w)
       | None => (Err (FileNotFoundError path), w)
       end.

Definition write_file (path : string) (f : file) : M world unit :=
  λ w, (Ok (), mk_world (<[path := f]> (fs w)) (log w)).

(** *** The tabular data store (quality_control.io) *)

Definition well_shaped (meta : DataFrame) (vals : ndarray)
    (features : list string) : bool :=
  frame_ok meta && rect vals
  && (index_len meta =? nrows vals) && (length features =? ncols vals).

(** Modelled from the spec: [split_parquet] of quality_control.io is
    not part of correct.py.  It loads the three co-indexed parts of the
    dataset stored at [path]; mismatched row or column counts are a
    [DataShapeError]. *)
Definition split_parquet (path : string)
    : M world (DataFrame * ndarray * list string) :=
  emit (EvSplitParquet path);;
  f ← read_file path;
  match f with
  | FDataset meta vals features =>
      if well_shaped meta vals features
      then mret (meta, vals, features)
      else raise DataShapeError
  | _ => raise (ValueError "not a tabular dataset")
  end.

(** Modelled from the spec: [merge_parquet] of quality_control.io is
    not part of correct.py.  It stores the three parts at [path];
    mismatched row or column counts are a [DataShapeError] and nothing
    is written. *)
Definition merge_parquet (meta : DataFrame) (vals : ndarray)
    (features : list string) (path : string) : M world unit :=
  emit (EvMergeParquet meta vals features path);;
  if well_shaped meta vals features
  then write_file path (FDataset meta vals features)
  else raise DataShapeError.

(** *** numpy *)

(** [a.astype(dt)] *)
Definition astype (dt : dtype) (a : ndarray) : ndarray :=
  mk_ndarray dt (ncols a) (map (map (round dt)) (rows a)).

(** [np.savez_compressed] appends the extension when it is missing. *)
Definition npz_path (path : string) : string :=
  if endswith path ".npz" then path else path +:+ ".npz".

Definition savez_compressed (path : string) (s : Spherer) : M world unit :=
  emit (EvSavez path s);;
  write_file (npz_path path) (FBlob s).

(** *** Calls into the whitening library *)

Definition call_fit (s : Spherer) (X : ndarray) : M world Spherer :=
  emit (EvFit s X);; lift (fit s X).

Definition call_transform (s : Spherer) (X : ndarray) : M world ndarray :=
  emit (EvTransform s X);; lift (transform s X).

(** *** sphering *)

Definition mode_message : string :=
  "mode should be " +:+ double_quote +:+ "corr" +:+ double_quote
  +:+ " or " +:+ double_quote +:+ "cov" +:+ double_quote.

(** The [if mode == 'corr' ... elif mode == 'cov' ... else: raise]
    that opens [sphering]. *)
Definition make_spherer (mode : string) (lambda_ : float) : result Spherer :=
  if String.eqb mode "corr" then Ok (ZCA_corr lambda_)
  else if String.eqb mode "cov" then Ok (ZCA lambda_)
  else Err (ValueError mode_message).

(** [spherer.transform(vals).astype(np.float32)] *)
Definition transform_step (spherer : Spherer) (vals : ndarray)
    : M world ndarray :=
  transformed ← call_transform spherer vals;
  mret (astype Float32 transformed).

Definition sphering (dframe_path mode : string) (lambda_ : float)
    (column_norm : string) (values_norm : list cell)
    (sphered_path spherer_path : string) : M world unit :=
  spherer ← lift (make_spherer mode lambda_);
  '(meta, vals, features) ← split_parquet dframe_path;
  col ← lift (frame_getitem meta column_norm);
  let train_ix := isin col values_norm in
  train ← lift (mask_rows vals train_ix);
  spherer ← call_fit spherer train;
  vals ← transform_step spherer vals;
  merge_parquet meta vals features sphered_path;;
  savez_compressed spherer_path spherer.

(** *** select_best *)

(** The frame a parquet file holds. *)
Definition feature_column (vals : ndarray) (j : nat) : list cell :=
  map (λ r, CNum (nth j r NaN)) (rows vals).

Definition dataset_frame (meta : DataFrame) (vals : ndarray)
    (features : list string) : DataFrame :=
  mk_frame (index_len meta)
    (imap (λ j name, (name, feature_column vals j)) features ++ columns meta).

(** The frame a stored file decodes to. *)
Definition frame_of_file (f : file) : result DataFrame :=
  match f with
  | FTable df => Ok df
  | FDataset meta vals features => Ok (dataset_frame meta vals features)
  | FBlob _ => Err (ValueError "not a parquet file")
  end.

(** [pd.read_parquet(path)] *)
Definition read_parquet (path : string) : M world DataFrame :=
  emit (EvReadParquet path);;
  f ← read_file path;
  lift (frame_of_file f).

(** [shutil.copy(src, dst)] *)
Definition shutil_copy (src dst : string) : M world unit :=
  emit (EvCopy src dst);;
  f ← read_file src;
  if String.eqb src dst then raise (SameFileError src)
  else write_file dst f.

(** What [pd.read_parquet(map_file)['mean_average_precision'].mean()]
    evaluates to on a given file system. *)
Definition read_score (fsys : gmap string file) (map_file : string)
    : result float :=
  match fsys !! map_file with
  | None => Err (FileNotFoundError map_file)
  | Some f =>
      match frame_of_file f with
      | Err e => Err e
      | Ok df =>
          match frame_getitem df "mean_average_precision" with
          | Err e => Err e
          | Ok col => column_mean col
          end
      end
  end.

(** The loop over [zip(map_files, parquet_files)]. *)
Fixpoint score_loop (pairs : list (string * string)) (scores : Series)
    : M world Series :=
  match pairs with
  | [] => mret scores
  | (map_file, parquet_file) :: pairs' =>
      df ← read_parquet map_file;
      col ← lift (frame_getitem df "mean_average_precision");
      mean_map ← lift (column_mean col);
      score_loop pairs' (series_setitem scores parquet_file mean_map)
  end.

(** The scores the loop computes on a file system, and the map files
    it reads on the way (it stops at the first failing read). *)
Fixpoint scores_of (fsys : gmap string file) (pairs : list (string * string))
    (scores : Series) : result Series :=
  match pairs with
  | [] => Ok scores
  | (map_file, parquet_file) :: pairs' =>
      match read_score fsys map_file with
      | Ok mean_map =>
          scores_of fsys pairs' (series_setitem scores parquet_file mean_map)
      | Err e => Err e
      end
  end.

Fixpoint reads_of (fsys : gmap string file) (pairs : list (string * string))
    : list string :=
  match pairs with
  | [] => []
  | (map_file, _) :: pairs' =>
      map_file :: match read_score fsys map_file with
                  | Ok _ => reads_of fsys pairs'
                  | Err _ => []
                  end
  end.

Definition after_reads (w : world) (reads : list string) : world :=
  mk_world (fs w) (log w ++ map EvReadParquet reads).

(** A stored evaluation map without the score column. *)
Definition lacks_score_column (fsys : gmap string file) (map_file : string)
    : Prop :=
  ∃ f df, fsys !! map_file = Some f ∧ frame_of_file f = Ok df
          ∧ assoc "mean_average_precision" (columns df) = None.

Definition select_best (map_files parquet_files : list string)
    (best_path : string) : M world unit :=
  scores ← score_loop (zip map_files parquet_files) [];
  best_parquet ← lift (index_last (sorter scores));
  shutil_copy best_parquet best_path.

End Pipeline.

(** ** Kinds of library calls *)




(** The rows of [vals] whose cell in [col] is one of [values]. *)
Definition matching_rows (vals : ndarray) (col values : list cell)
    : list (list float) :=
  (filter (λ rc, existsb (cell_eqb rc.2) values = true) (zip (rows vals) col)).*1.

Section SpheringStages.
Context {zca : ZCALib}.
Variable round : dtype → float → float.

(** What [sphering] does once the dataset is loaded. *)
Definition after_split (sp : Spherer) (meta : DataFrame) (vals : ndarray)
    (features : list string) (column_norm : string) (values_norm : list cell)
    (sphered_path spherer_path : string) (w1 : world) : result unit * world :=
  match frame_getitem meta column_norm with
  | Err e => (Err e, w1)
  | Ok col =>
      match mask_rows vals (isin col values_norm) with
      | Err e => (Err e, w1)
      | Ok train =>
          let w2 := mk_world (fs w1) (log w1 ++ [EvFit sp train]) in
          match fit sp train with
          | Err e => (Err e, w2)
          | Ok sp' =>
              let w3 := mk_world (fs w1) (log w2 ++ [EvTransform sp' vals]) in
              match transform sp' vals with
              | Err e => (Err e, w3)
              | Ok t =>
                  let v := astype round Float32 t in
                  let log4 := log w3 ++ [EvMergeParquet meta v features sphered_path] in
                  if well_shaped meta v features
                  then (Ok (),
                        mk_world (<[npz_path spherer_path := FBlob sp']>
                                    (<[sphered_path := FDataset meta v features]> (fs w1)))
                                 (log4 ++ [EvSavez spherer_path sp']))
                  else (Err DataShapeError, mk_world (fs w1) log4)
              end
          end
      end
  end.

End SpheringStages.

(** ** Correction units on annotated datasets *)

(** numpy reductions and in-place arithmetic used by [scvi] (differences
    are exact). *)
Definition fmin (x y : float) : float :=
  match x, y with
  | Num p, Num q => if Qle_bool p q then Num p else Num q
  | _, _ => NaN
  end.

Definition fsub (x y : float) : float :=
  match x, y with
  | Num p, Num q => Num (p - q)
  | _, _ => NaN
  end.

Definition entries (a : ndarray) : list float := concat (rows a).

(** [a.min()]: a NaN entry makes the minimum NaN, a matrix without
    entries has no minimum. *)
Definition array_min (a : ndarray) : result float :=
  match entries a with
  | [] => Err (ValueError "zero-size array to reduction operation minimum which has no identity")
  | x :: xs => Ok (foldl fmin x xs)
  end.

(** The value of [a] after [a -= m]. *)
Definition array_sub (a : ndarray) (m : float) : ndarray :=
  mk_ndarray (adtype a) (ncols a) (map (map (λ x, fsub x m)) (rows a)).



(** [d[k] = v] on an insertion-ordered dict. *)
Fixpoint dict_setitem {A} (d : list (string * A)) (k : string) (v : A)
    : list (string * A) :=
  match d with
  | [] => [(k, v)]
  | (k', v') :: d' =>
      if String.eqb k k' then (k, v) :: d' else (k', v') :: dict_setitem d' k v
  end.

(** An [AnnData] object refers to its arrays: [X] and the values of
    [obsm] are references into the store of arrays, so that two slots
    may hold the same array. *)
Record AnnData := mk_adata {
  X : nat;
  obs : DataFrame;
  obsm : list (string * nat)
}.

Record heap := mk_heap {
  arrays : list ndarray;
  adatas : list AnnData
}.

Definition alloc (a : ndarray) : M heap nat :=
  λ h, (Ok (length (arrays h)), mk_heap (arrays h ++ [a]) (adatas h)).

Definition load (l : nat) : M heap ndarray :=
  λ h, match arrays h !! l with
       | Some a => (Ok a, h)
       | None => (Err (ValueError "no such array"), h)
       end.

(** In-place update of the array at [l]. *)
Definition store (l : nat) (a : ndarray) : M heap unit :=
  λ h, (Ok (), mk_heap (<[l := a]> (arrays h)) (adatas h)).

Definition get_adata (r : nat) : M heap AnnData :=
  λ h, match adatas h !! r with
       | Some obj => (Ok obj, h)
       | None => (Err (ValueError "no such object"), h)
       end.

Definition set_adata (r : nat) (obj : AnnData) : M heap unit :=
  λ h, (Ok (), mk_heap (arrays h) (<[r := obj]> (adatas h))).

(** [adata.obsm[key] = value]: the slot refers to the array [value]. *)
Definition obsm_setitem (adata : nat) (key : string) (value : nat) : M heap unit :=
  obj ← get_adata adata;
  set_adata adata (mk_adata (X obj) (obs obj) (dict_setitem (obsm obj) key value)).

(** The copies of the arrays of [obsm], to be stored from [next] on. *)
Fixpoint copy_obsm (arrs : list ndarray) (next : nat) (slots : list (string * nat))
    : result (list (string * nat) * list ndarray) :=
  match slots with
  | [] => Ok ([], [])
  | (k, l) :: slots' =>
      match arrs !! l with
      | None => Err (ValueError "no such array")
      | Some a =>
          match copy_obsm arrs (S next) slots' with
          | Ok (slots'', news) => Ok ((k, next) :: slots'', a :: news)
          | Err e => Err e
          end
      end
  end.

(** [adata.copy()]: a new object with its own copy of every array. *)
Definition copy (adata : nat) : M heap nat :=
  λ h, match adatas h !! adata with
       | None => (Err (ValueError "no such object"), h)
       | Some obj =>
           match arrays h !! X obj with
           | None => (Err (ValueError "no such array"), h)
           | Some x =>
               match copy_obsm (arrays h) (S (length (arrays h))) (obsm obj) with
               | Err e => (Err e, h)
               | Ok (slots, news) =>
                   (Ok (length (adatas h)),
                    mk_heap (arrays h ++ x :: news)
                            (adatas h ++ [mk_adata (length (arrays h)) (obs obj) slots]))
               end
           end
       end.

(** The functions of correct.py a registry entry can refer to. *)
Inductive func :=
  | fn_harmony | fn_mnn | fn_scanorama | fn_combat | fn_desc
  | fn_scvi | fn_identity | fn_trvaep.

(** [partial(func, batch_key=..., label_key=...)] *)
Record partial := mk_partial {
  pfunc : func;
  kw_batch_key : string;
  kw_label_key : option string
}.

(** [d[k]] on a dict. *)
Definition dict_getitem {A} (d : gmap string A) (k : string) : result A :=
  match d !! k with
  | Some v => Ok v
  | None => Err (KeyError k)
  end.

Definition get_method_map (batch_key label_key : string) : gmap string partial :=
  list_to_map
    [("harmony", mk_partial fn_harmony batch_key None);
     ("mnn", mk_partial fn_mnn batch_key None);
     ("scanorama", mk_partial fn_scanorama batch_key None);
     ("combat", mk_partial fn_combat batch_key None);
     ("desc", mk_partial fn_desc batch_key None);
     ("sphering", mk_partial fn_identity batch_key None);
     ("scvi", mk_partial fn_scvi batch_key (Some label_key))].

(** The documented names of the registry. *)
Definition method_names : gset string :=
  {[ "harmony"; "mnn"; "scanorama"; "combat"; "desc"; "sphering"; "scvi" ]}.

(** The scVI library and the integration methods that are delegated
    whole are interfaces: [setup_anndata] returns the observations with
    the batch and label registration added, the model is built from the
    set-up data, and each call may raise. *)
Class Integrators := {
  Model : Type;
  setup_anndata : ndarray → DataFrame → string → string → result DataFrame;
  SCVI : ndarray → DataFrame → nat → nat → result Model;
  view_anndata_setup : Model → result unit;
  train : Model → result Model;
  get_latent_representation : Model → result ndarray;
  delegated : func → string → nat → string → M heap unit
}.

Section Units.
Context {lib : Integrators}.

Definition identity (adata : nat) (batch_key corrected_embed : string)
    : M heap unit :=
  obj ← get_adata adata;
  obsm_setitem adata corrected_embed (X obj).

(** [SCVI.setup_anndata(train_adata, batch_key=..., labels_key=...)] *)
Definition call_setup_anndata (train_adata : nat) (batch_key label_key : string)
    : M heap unit :=
  obj ← get_adata train_adata;
  x ← load (X obj);
  obs' ← lift (setup_anndata x (obs obj) batch_key label_key);
  set_adata train_adata (mk_adata (X obj) obs' (obsm obj)).

(** [SCVI(train_adata, n_layers=..., n_latent=...)] *)
Definition call_SCVI (train_adata n_layers n_latent : nat) : M heap Model :=
  obj ← get_adata train_adata;
  x ← load (X obj);
  lift (SCVI x (obs obj) n_layers n_latent).

(** The model calls of [scvi] in sequence, on the set-up training data. *)
Definition fit_latent (x : ndarray) (obs' : DataFrame) (n_layers n_latent : nat)
    : result ndarray :=
  match SCVI x obs' n_layers n_latent with
  | Err e => Err e
  | Ok vae =>
      match view_anndata_setup vae with
      | Err e => Err e
      | Ok _ =>
          match train vae with
          | Err e => Err e
          | Ok vae' => get_latent_representation vae'
          end
      end
  end.

Definition scvi (adata : nat) (batch_key corrected_embed label_key : string)
    : M heap unit :=
  let n_latent := 30 in
  train_adata ← copy adata;
  tobj ← get_adata train_adata;
  tx ← load (X tobj);
  min_value ← lift (array_min tx);
  store (X tobj) (array_sub tx min_value);;
  call_setup_anndata train_adata batch_key label_key;;
  vae ← call_SCVI train_adata 2 n_latent;
  lift (view_anndata_setup vae);;
  vae ← lift (train vae);
  latent ← lift (get_latent_representation vae);
  z ← alloc latent;
  obsm_setitem adata corrected_embed z.

(** Calling a registry entry with the dataset and the slot name. *)
Definition call_partial (p : partial) (adata : nat) (corrected_embed : string)
    : M heap unit :=
  match pfunc p, kw_label_key p with
  | fn_identity, None => identity adata (kw_batch_key p) corrected_embed
  | fn_scvi, Some label_key =>
      scvi adata (kw_batch_key p) corrected_embed label_key
  | fn_scvi, None => raise (TypeError "missing argument label_key")
  | f, None => delegated f (kw_batch_key p) adata corrected_embed
  | _, Some _ => raise (TypeError "unexpected keyword argument label_key")
  end.

End Units.

(** ** Further correction units: [harmony] and [trvaep] *)

(** [a.T] *)
Definition column (a : ndarray) (j : nat) : list float :=
  map (λ r, nth j r NaN) (rows a).

Definition transpose (a : ndarray) : ndarray :=
  mk_ndarray (adtype a) (nrows a) (map (column a) (seq 0 (ncols a))).

(** [min(adata.shape) - 1], an integer that is negative for a dataset
    without observations or without features. *)
Definition n_latent_of_shape (x : ndarray) : Z :=
  (Z.of_nat (nrows x) `min` Z.of_nat (ncols x) - 1)%Z.

(** scanpy's PCA, harmonypy and scib's trVAE are interfaces: [pca]
    gives the embedding of a matrix with the requested number of
    components, [run_harmony] the corrected matrix [Z_corr] for an
    embedding, the observations, the batch key, the iteration bound and
    the number of clusters, [scib_trvaep] the matrix of the dataset the
    integration returns. *)
Class Embedders := {
  pca : ndarray → Z → result ndarray;
  run_harmony : ndarray → DataFrame → string → nat → nat → result ndarray;
  scib_trvaep : ndarray → DataFrame → string → result ndarray
}.

(** [adata.obsm[key]] *)
Definition obsm_getitem (adata : nat) (key : string) : M heap nat :=
  obj ← get_adata adata;
  match assoc key (obsm obj) with
  | Some l => mret l
  | None => raise (KeyError key)
  end.

Section MoreUnits.
Context {emb : Embedders}.
Variable round : dtype → float → float.

(** [sc.tl.pca(adata, n_comps=...)]: the embedding is left in the slot
    'X_pca', where [harmony] reads it. *)
Definition sc_tl_pca (adata : nat) (n_comps : Z) : M heap unit :=
  obj ← get_adata adata;
  x ← load (X obj);
  e ← lift (pca x n_comps);
  l ← alloc e;
  obsm_setitem adata "X_pca" l.

Definition harmony (adata : nat) (batch_key corrected_embed : string)
    : M heap unit :=
  obj ← get_adata adata;
  x ← load (X obj);
  let n_latent := n_latent_of_shape x in
  sc_tl_pca adata n_latent;;
  l ← obsm_getitem adata "X_pca";
  x_pca ← load l;
  obj ← get_adata adata;
  z_corr ← lift (run_harmony x_pca (obs obj) batch_key 20 300);
  z ← alloc (transpose z_corr);
  obsm_setitem adata corrected_embed z.

Definition trvaep (adata : nat) (batch_key corrected_embed : string)
    : M heap unit :=
  adata_int ← copy adata;
  tobj ← get_adata adata_int;
  tx ← load (X tobj);
  l ← alloc (astype round Float32 tx);
  set_adata adata_int (mk_adata l (obs tobj) (obsm tobj));;
  tobj ← get_adata adata_int;
  tx ← load (X tobj);
  out ← lift (scib_trvaep tx (obs tobj) batch_key);
  z ← alloc out;
  obsm_setitem adata corrected_embed z.

End MoreUnits.

(** ** The parameter sweep (explore_reg_params.py) *)

(** A JSON document, as [json.load] returns it. *)
#[local] Unset Elimination Schemes.
Inductive json :=
  | JNull
  | JBool (b : bool)
  | JNum (x : float)
  | JStr (s : string)
  | JArray (items : list json)
  | JObject (members : list (string * json)).
#[local] Set Elimination Schemes.

(** [doc[key] = value] with a string key. *)
Definition json_setitem (doc : json) (key : string) (value : json) : result json :=
  match doc with
  | JObject members => Ok (JObject (dict_setitem members key value))
  | JArray _ => Err (TypeError "list indices must be integers or slices, not str")
  | _ => Err (TypeError "object does not support item assignment")
  end.

(** The two constants of the loop body. *)
Definition epsilon_mad : float := Num (29032327858896217 # 100000000000000000000).
Definition lambda_const : float := Num (5566152843198177 # 1000000000000000000000).

(** The assignments [config['sphering_lambda'] = lambda_] and
    [config['epsilon_mad'] = epsilon_mad] of one iteration. *)
Definition set_params (config : json) : result json :=
  match json_setitem config "sphering_lambda" (JNum lambda_const) with
  | Err e => Err e
  | Ok config' => json_setitem config' "epsilon_mad" (JNum epsilon_mad)
  end.

(** The documents that [n] iterations of the loop of [explore_params]
    hand to [json.dump]: [config] is one object updated in place, so
    each iteration starts from the document the previous one left. *)
Fixpoint dumped_configs (n : nat) (config : json) : result (list json) :=
  match n with
  | 0 => Ok []
  | S n' =>
      match set_params config with
      | Err e => Err e
      | Ok config' =>
          match dumped_configs n' config' with
          | Ok docs => Ok (config' :: docs)
          | Err e => Err e
          end
      end
  end.

(** ** The score order and sorting *)

Lemma score_le_refl x : score_le x x = true.
Proof. destruct x as [|q]; simpl; [done|]. apply Qle_bool_iff, Qle_refl. Qed.

Lemma score_le_trans x y z :
  score_le x y = true → score_le y z = true → score_le x z = true.
Proof.
  destruct x as [|p], y as [|q], z as [|r]; simpl; try done.
  rewrite !Qle_bool_iff. apply Qle_trans.
Qed.

Lemma score_le_total x y : score_le x y = false → score_le y x = true.
Proof.
  destruct x as [|p], y as [|q]; simpl; try done.
  intros H. apply Qle_bool_iff. destruct (Qlt_le_dec q p) as [Hlt|Hle].
  - by apply Qlt_le_weak.
  - apply Qle_bool_iff in Hle. congruence.
Qed.


Lemma insert_by_perm before e l : insert_by before e l ≡ₚ e :: l.
Proof.
  induction l as [|e' l IH]; simpl; [done|].
  destruct (before e.2 e'.2); [done|]. rewrite IH. apply Permutation_swap.
Qed.

Lemma sort_by_perm before s : sort_by before s ≡ₚ s.
Proof.
  induction s as [|e s IH]; simpl; [done|].
  by rewrite insert_by_perm, IH.
Qed.

Section InsertionSort.
Variable before : float → float → bool.
Hypothesis before_le : ∀ x y, before x y = true → score_le x y = true.
Hypothesis not_before_ge : ∀ x y, before x y = false → score_le y x = true.

Lemma insert_by_sorted e l :
  StronglySorted entry_le l → StronglySorted entry_le (insert_by before e l).
Proof.
  induction 1 as [|e' l Hl IH Hall]; simpl.
  - repeat constructor.
  - destruct (before e.2 e'.2) eqn:Hb.
    + constructor; [by constructor|].
      constructor; [by apply before_le|].
      eapply Forall_impl; [exact Hall|].
      intros z Hz. unfold entry_le in *.
      eapply score_le_trans; [by apply before_le|done].
    + constructor; [done|].
      rewrite insert_by_perm. constructor; [|done].
      by apply not_before_ge.
Qed.

Lemma sort_by_sorted s : StronglySorted entry_le (sort_by before s).
Proof.
  induction s as [|e s IH]; simpl; [constructor|]. by apply insert_by_sorted.
Qed.
End InsertionSort.

Lemma before_tied_le x y : before_tied x y = true → score_le x y = true.
Proof. done. Qed.
Lemma before_tied_ge x y : before_tied x y = false → score_le y x = true.
Proof. apply score_le_total. Qed.
Lemma before_larger_le x y : before_larger x y = true → score_le x y = true.
Proof. unfold before_larger. intros H%negb_true_iff. by apply score_le_total. Qed.
Lemma before_larger_ge x y : before_larger x y = false → score_le y x = true.
Proof. unfold before_larger. by intros H%negb_false_iff. Qed.

(** Two sorters that meet the contract of [sort_values]. *)
Definition stable_sorter : Sorter :=
  mk_sorter (sort_by before_tied) (sort_by_perm before_tied)
            (sort_by_sorted before_tied before_tied_le before_tied_ge).

Definition reversing_sorter : Sorter :=
  mk_sorter (sort_by before_larger) (sort_by_perm before_larger)
            (sort_by_sorted before_larger before_larger_le before_larger_ge).



(** *** The last entry of a sorted series *)

Lemma last_sorted_max (sorter : Sorter) (s : Series) e :
  last (sorter s) = Some e → ∀ e', e' ∈ s → score_le e'.2 e.2 = true.
Proof.
  intros Hlast e' Hin. apply last_Some in Hlast as [l Hl].
  pose proof (sort_values_sorted sorter s) as Hs. rewrite Hl in Hs.
  rewrite <- (sort_values_perm sorter s), Hl in Hin.
  apply elem_of_app in Hin as [Hin|Hin].
  - eapply (StronglySorted_app_1_elem_of entry_le); [exact Hs|done|set_solver].
  - apply list_elem_of_singleton in Hin as ->. apply score_le_refl.
Qed.



(** ** Stand-ins for the whitening library

    Two small instances of the interface make runs concrete: a lenient
    one whose [fit] accepts any matrix, and a strict one whose [fit]
    rejects a matrix without rows. *)

Record stub_spherer := mk_stub {
  by_corr : bool;
  regularization : float;
  fitted : bool
}.

Definition stub_transform (s : stub_spherer) (X : ndarray) : result ndarray :=
  if fitted s then Ok (mk_ndarray Float64 (ncols X) (rows X))
  else Err (LibraryError "NotFittedError").

Definition lenient_zca : ZCALib := {|
  Spherer := stub_spherer;
  ZCA := λ r, mk_stub false r false;
  ZCA_corr := λ r, mk_stub true r false;
  fit := λ s X, Ok (mk_stub (by_corr s) (regularization s) true);
  transform := stub_transform
|}.

Definition strict_zca : ZCALib := {|
  Spherer := stub_spherer;
  ZCA := λ r, mk_stub false r false;
  ZCA_corr := λ r, mk_stub true r false;
  fit := λ s X,
    match rows X with
    | [] => Err (ValueError "Found array with 0 sample(s)")
    | _ => Ok (mk_stub (by_corr s) (regularization s) true)
    end;
  transform := stub_transform
|}.

(** Values are stored as they are in the concrete runs. *)
Definition exact : dtype → float → float := λ _ x, x.

(** A two-row dataset with a plate column and a sample-type column. *)
Definition demo_meta : DataFrame :=
  mk_frame 2 [("Metadata_Plate", [CStr "P1"; CStr "P2"]);
              ("Metadata_Type", [CStr "negcon"; CStr "trt"])].

Definition demo_vals : ndarray :=
  mk_ndarray Float64 2 [[Num 1; Num 2]; [Num 3; Num 4]].

Definition demo_features : list string := ["f1"; "f2"].

Definition demo_world {zca : ZCALib} : world :=
  mk_world {[ "data.parquet" := FDataset demo_meta demo_vals demo_features ]} [].

(** An evaluation map whose score column holds [xs], and a corrected
    dataset recognisable by the value [x] it is filled with. *)
Definition score_table {zca : ZCALib} (xs : list float) : file :=
  FTable (mk_frame (length xs) [("mean_average_precision", map CNum xs)]).

Definition demo_dataset {zca : ZCALib} (x : Q) : file :=
  FDataset demo_meta (mk_ndarray Float32 2 [[Num x; Num x]; [Num x; Num x]])
           demo_features.

(** Three sweep results with mean scores 0.2, 0.9 and 0.5. *)
Definition sweep_world : @world lenient_zca :=
  mk_world (list_to_map
    [("a.map", score_table [Num (2 # 10)]); ("a.parquet", demo_dataset 1);
     ("b.map", score_table [Num (8 # 10); Num 1]); ("b.parquet", demo_dataset 2);
     ("c.map", score_table [Num (5 # 10)]); ("c.parquet", demo_dataset 3)]) [].

(** Two sweep results tied at 0.7. *)
Definition tie_world : @world lenient_zca :=
  mk_world (list_to_map
    [("a.map", score_table [Num (7 # 10)]); ("a.parquet", demo_dataset 1);
     ("b.map", score_table [Num (6 # 10); Num (8 # 10)]);
     ("b.parquet", demo_dataset 2)]) [].

(** A sweep whose first evaluation map has no rows (its mean is NaN) and
    one with a map file that has no score column. *)
Definition nan_world : @world lenient_zca :=
  mk_world (list_to_map
    [("a.map", score_table []); ("a.parquet", demo_dataset 1);
     ("b.map", score_table [Num (5 # 10)]); ("b.parquet", demo_dataset 2);
     ("bad.map", FTable (mk_frame 1 [("other", [CNum (Num 1)])]))]) [].

(** A stand-in for the scVI library: set-up checks that the two keys
    are columns of the observations, the model remembers its training
    data and sizes, and the latent representation has one zero row of
    width [n_latent] per observation. *)
Record stub_model := mk_stub_model {
  training : ndarray;
  n_layers_of : nat;
  n_latent_of : nat
}.

Definition stub_integrators : Integrators := {|
  Model := stub_model;
  setup_anndata := λ x o batch_key label_key,
    match assoc batch_key (columns o), assoc label_key (columns o) with
    | Some _, Some _ => Ok o
    | None, _ => Err (KeyError batch_key)
    | _, None => Err (KeyError label_key)
    end;
  SCVI := λ x o n_layers n_latent, Ok (mk_stub_model x n_layers n_latent);
  view_anndata_setup := λ _, Ok ();
  train := λ vae, Ok vae;
  get_latent_representation := λ vae,
    Ok (mk_ndarray Float32 (n_latent_of vae)
          (map (λ _, replicate (n_latent_of vae) (Num 0)) (rows (training vae))));
  delegated := λ _ _ _ _, raise (LibraryError "not installed")
|}.

(** A dataset of two observations whose matrix has negative entries. *)
Definition demo_counts : ndarray :=
  mk_ndarray Float32 2 [[Num (-1); Num 2]; [Num 3; Num (-4)]].

Definition demo_heap : heap :=
  mk_heap [demo_counts] [mk_adata 0 demo_meta []].

(** A sphering run with the negative controls as training rows, and a
    run of [scvi] on the demo dataset. *)
Definition demo_run : result unit * @world lenient_zca :=
  sphering (zca := lenient_zca) exact "data.parquet" "cov" (Num 1)
    "Metadata_Type" [CStr "negcon"] "out.parquet" "spherer" demo_world.

Definition scvi_run_demo : result unit * heap :=
  scvi (lib := stub_integrators) 0 "Metadata_Plate" "X_scvi" "Metadata_Type"
    demo_heap.

(** Stand-ins for PCA, harmony and trVAE: PCA keeps the first
    components of each row, the harmony iteration returns the embedding
    transposed when the batch key is a column of the observations, the
    trVAE integration returns its input. *)
Definition stub_embedders : Embedders := {|
  pca := λ x n,
    if (0 <=? n)%Z
    then Ok (mk_ndarray Float32 (Z.to_nat n) (map (take (Z.to_nat n)) (rows x)))
    else Err (ValueError "n_components must not be negative");
  run_harmony := λ e o batch_key max_iter nclust,
    match assoc batch_key (columns o) with
    | Some _ => Ok (transpose e)
    | None => Err (KeyError batch_key)
    end;
  scib_trvaep := λ x o batch_key,
    match assoc batch_key (columns o) with
    | Some _ => Ok x
    | None => Err (KeyError batch_key)
    end
|}.

(** A run whose operator archive has the path of the corrected dataset,
    a dataset without observations, and a matrix with a NaN entry. *)
Definition clash_run : result unit * @world lenient_zca :=
  sphering (zca := lenient_zca) exact "data.parquet" "cov" (Num 1)
    "Metadata_Type" [CStr "negcon"] "out.npz" "out" demo_world.

Definition empty_heap : heap :=
  mk_heap [mk_ndarray Float32 2 []]
          [mk_adata 0 (mk_frame 0 [("Metadata_Plate", []); ("Metadata_Type", [])]) []].

Definition nan_counts : ndarray :=
  mk_ndarray Float32 2 [[Num 1; NaN]; [Num 3; Num 4]].

(** Runs of the selector and of the units on the demo data. *)
Definition sweep_run : result unit * @world lenient_zca :=
  select_best (zca := lenient_zca) reversing_sorter
    ["a.map"; "b.map"; "c.map"] ["a.parquet"; "b.parquet"; "c.parquet"]
    "best.parquet" sweep_world.

Definition harmony_demo : result unit * heap :=
  harmony (emb := stub_embedders) 0 "Metadata_Plate" "X_harmony" demo_heap.

Definition trvaep_demo : result unit * heap :=
  trvaep (emb := stub_embedders) exact 0 "Metadata_Plate" "X_trvaep" demo_heap.

Definition scvi_empty_demo : result unit * heap :=
  scvi (lib := stub_integrators) 0 "Metadata_Plate" "X_scvi" "Metadata_Type"
    empty_heap.

(** ** Facts about the monad *)


Lemma bind_err {S A B} (c : M S A) (k : A → M S B) s e s' :
  c s = (Err e, s') → (c ≫= k) s = (Err e, s').
Proof. intros H. unfold mbind, M_bind, bind. by rewrite H. Qed.

Lemma bind_inv {S A B} (c : M S A) (k : A → M S B) s r s' :
  (c ≫= k) s = (r, s') →
  (∃ a s1, c s = (Ok a, s1) ∧ k a s1 = (r, s'))
  ∨ (∃ e, c s = (Err e, s') ∧ r = Err e).
Proof.
  unfold mbind, M_bind, bind. destruct (c s) as [[a|e] s1]; intros H.
  - left. eauto.
  - right. inversion H; subst. eauto.
Qed.

Lemma bind_ok_inv {S A B} (c : M S A) (k : A → M S B) s b s' :
  (c ≫= k) s = (Ok b, s') → ∃ a s1, c s = (Ok a, s1) ∧ k a s1 = (Ok b, s').
Proof.
  intros H. apply bind_inv in H as [H|[e [_ H]]]; [done|discriminate].
Qed.

Lemma lift_ok_inv {S A} (r : result A) (s s' : S) a :
  lift r s = (Ok a, s') → r = Ok a ∧ s' = s.
Proof. unfold lift. intros H. by inversion H. Qed.


(** ** The sphering orchestrator *)

Section SpheringFacts.
Context {zca : ZCALib}.
Variable round : dtype → float → float.

Lemma make_spherer_invalid mode lambda_ :
  mode ≠ "corr" → mode ≠ "cov" →
  make_spherer mode lambda_ = Err (ValueError mode_message).
Proof.
  intros Hcorr Hcov. unfold make_spherer.
  apply String.eqb_neq in Hcorr, Hcov. by rewrite Hcorr, Hcov.
Qed.

Lemma split_parquet_ok_inv path w r w' :
  split_parquet path w = (Ok r, w') →
  ∃ meta vals features,
    r = (meta, vals, features)
    ∧ fs w !! path = Some (FDataset meta vals features)
    ∧ well_shaped meta vals features = true
    ∧ w' = mk_world (fs w) (log w ++ [EvSplitParquet path]).
Proof.
  unfold split_parquet, emit, read_file, mbind, M_bind, bind. simpl.
  destruct (fs w !! path) as [[meta vals features| |]|] eqn:Hf; try done.
  destruct (well_shaped meta vals features) eqn:Hs; try done.
  intros H. inversion H; subst. by exists meta, vals, features.
Qed.

Lemma merge_parquet_ok_inv meta vals features path w w' :
  merge_parquet meta vals features path w = (Ok (), w') →
  well_shaped meta vals features = true
  ∧ w' = mk_world (<[path := FDataset meta vals features]> (fs w))
                  (log w ++ [EvMergeParquet meta vals features path]).
Proof.
  unfold merge_parquet, emit, write_file, mbind, M_bind, bind. simpl.
  destruct (well_shaped meta vals features) eqn:Hs; try done.
  intros H. by inversion H.
Qed.

Lemma transform_step_ok_inv s vals w v w' :
  transform_step round s vals w = (Ok v, w') →
  ∃ t, transform s vals = Ok t ∧ v = astype round Float32 t
       ∧ w' = mk_world (fs w) (log w ++ [EvTransform s vals]).
Proof.
  unfold transform_step, call_transform, emit, lift, mbind, M_bind, bind, mret, M_ret, ret.
  simpl. destruct (transform s vals) as [t|e] eqn:Ht; try done.
  intros H. inversion H; subst. by exists t.
Qed.

(** What a run that returns normally has done, statement by statement. *)
Lemma sphering_ok_inv dframe_path mode lambda_ column_norm values_norm
    sphered_path spherer_path w w' :
  sphering round dframe_path mode lambda_ column_norm values_norm
           sphered_path spherer_path w = (Ok (), w') →
  ∃ sp meta vals features col train sp' t,
    make_spherer mode lambda_ = Ok sp
    ∧ fs w !! dframe_path = Some (FDataset meta vals features)
    ∧ well_shaped meta vals features = true
    ∧ frame_getitem meta column_norm = Ok col
    ∧ mask_rows vals (isin col values_norm) = Ok train
    ∧ fit sp train = Ok sp'
    ∧ transform sp' vals = Ok t
    ∧ well_shaped meta (astype round Float32 t) features = true
    ∧ w' = mk_world
             (<[npz_path spherer_path := FBlob sp']>
                (<[sphered_path := FDataset meta (astype round Float32 t) features]>
                   (fs w)))
             (log w ++ [EvSplitParquet dframe_path; EvFit sp train;
                        EvTransform sp' vals;
                        EvMergeParquet meta (astype round Float32 t) features
                                       sphered_path;
                        EvSavez spherer_path sp']).
Proof.
  unfold sphering. intros H.
  apply bind_ok_inv in H as (sp & w1 & Hsp & H).
  apply lift_ok_inv in Hsp as [Hsp ->].
  apply bind_ok_inv in H as ([[meta vals] features] & w2 & Hsplit & H).
  apply split_parquet_ok_inv in Hsplit as (? & ? & ? & [= <- <- <-] & Hfs & Hshape & ->).
  apply bind_ok_inv in H as (col & w3 & Hcol & H).
  apply lift_ok_inv in Hcol as [Hcol ->].
  apply bind_ok_inv in H as (train & w4 & Htrain & H).
  apply lift_ok_inv in Htrain as [Htrain ->].
  apply bind_ok_inv in H as (sp' & w5 & Hfit & H).
  unfold call_fit in Hfit.
  apply bind_ok_inv in Hfit as ([] & w6 & Hemit & Hfit).
  apply lift_ok_inv in Hfit as [Hfit ->].
  unfold emit in Hemit. injection Hemit as <-.
  apply bind_ok_inv in H as (v & w7 & Htr & H).
  apply transform_step_ok_inv in Htr as (t & Ht & -> & ->).
  apply bind_ok_inv in H as ([] & w8 & Hmerge & H).
  apply merge_parquet_ok_inv in Hmerge as [Hshape' ->].
  unfold savez_compressed, emit, write_file, mbind, M_bind, bind in H.
  simpl in H. injection H as <-.
  exists sp, meta, vals, features, col, train, sp', t.
  repeat split; try done.
  by rewrite <- !app_assoc.
Qed.

(** C3.  A mode string other than 'corr' and 'cov' makes [sphering]
    raise the invalid-mode ValueError at once: the world it returns is
    the world it was given, so no dataset was loaded, no operator was
    fitted (the call log is unchanged) and no file was written (the
    file system is unchanged). *)
Theorem sphering_invalid_mode dframe_path mode lambda_ column_norm values_norm
    sphered_path spherer_path (w : world) :
  mode ≠ "corr" → mode ≠ "cov" →
  sphering round dframe_path mode lambda_ column_norm values_norm
           sphered_path spherer_path w
  = (Err (ValueError mode_message), w).
Proof.
  intros Hcorr Hcov. unfold sphering.
  apply bind_err. unfold lift. by rewrite make_spherer_invalid.
Qed.



Lemma well_shaped_inv meta vals features :
  well_shaped meta vals features = true →
  frame_ok meta = true ∧ rect vals = true
  ∧ index_len meta = nrows vals ∧ length features = ncols vals.
Proof.
  unfold well_shaped. rewrite !andb_true_iff, !Nat.eqb_eq. tauto.
Qed.


(** C5.  A run of [sphering] that returns normally loaded the dataset
    [(meta, vals, features)], fitted the operator on the masked rows,
    applied the fitted operator to the whole matrix [vals], and handed
    [merge_parquet] the same metadata, the same feature list and the
    transformed matrix cast to float32 for the corrected path; that
    matrix has as many rows and columns as [vals], and it is what the
    corrected path holds unless the operator archive has the same
    path. *)
Theorem sphering_output dframe_path mode lambda_ column_norm values_norm
    sphered_path spherer_path (w w' : world) :
  sphering round dframe_path mode lambda_ column_norm values_norm
           sphered_path spherer_path w = (Ok (), w') →
  ∃ meta vals features sp col train sp' t,
    fs w !! dframe_path = Some (FDataset meta vals features)
    ∧ make_spherer mode lambda_ = Ok sp
    ∧ frame_getitem meta column_norm = Ok col
    ∧ mask_rows vals (isin col values_norm) = Ok train
    ∧ fit sp train = Ok sp'
    ∧ transform sp' vals = Ok t
    ∧ EvMergeParquet meta (astype round Float32 t) features sphered_path ∈ log w'
    ∧ nrows (astype round Float32 t) = nrows vals
    ∧ ncols (astype round Float32 t) = ncols vals
    ∧ (npz_path spherer_path ≠ sphered_path →
       fs w' !! sphered_path
       = Some (FDataset meta (astype round Float32 t) features)).
Proof.
  intros H. apply sphering_ok_inv in H
    as (sp & meta & vals & features & col & train & sp' & t
        & Hsp & Hfs & Hshape & Hcol & Htrain & Hfit & Ht & Hshape' & ->).
  exists meta, vals, features, sp, col, train, sp', t.
  apply well_shaped_inv in Hshape as (_ & _ & Hr & Hc).
  apply well_shaped_inv in Hshape' as (_ & _ & Hr' & Hc').
  repeat split; try done.
  - simpl. set_solver.
  - congruence.
  - congruence.
  - intros Hne. simpl. rewrite lookup_insert_ne by done. by rewrite lookup_insert_eq.
Qed.

(** C6.  Whatever the precision of the input matrix and whatever
    [transform] returns, the rows produced by the transform step
    [spherer.transform(vals).astype(np.float32)] are float32. *)
Theorem transform_step_float32 (s : Spherer) (vals : ndarray) (w w' : world) v :
  transform_step round s vals w = (Ok v, w') → adtype v = Float32.
Proof.
  intros H. apply transform_step_ok_inv in H as (t & _ & -> & _). reflexivity.
Qed.

End SpheringFacts.

(** ** More on the sphering orchestrator *)

Section SpheringRuns.
Context {zca : ZCALib}.
Variable round : dtype → float → float.

Lemma run_bind {S A B} (c : M S A) (k : A → M S B) s :
  (c ≫= k) s = match c s with
               | (Ok a, s') => k a s'
               | (Err e, s') => (Err e, s')
               end.
Proof. done. Qed.

Lemma split_parquet_run path (w : world) :
  split_parquet path w
  = let w1 := mk_world (fs w) (log w ++ [EvSplitParquet path]) in
    match fs w !! path with
    | None => (Err (FileNotFoundError path), w1)
    | Some (FDataset meta vals features) =>
        if well_shaped meta vals features
        then (Ok (meta, vals, features), w1)
        else (Err DataShapeError, w1)
    | Some _ => (Err (ValueError "not a tabular dataset"), w1)
    end.
Proof.
  unfold split_parquet, emit, read_file, mbind, M_bind, bind. simpl.
  destruct (fs w !! path) as [[meta vals features| |]|]; try done.
  by destruct (well_shaped meta vals features).
Qed.

Lemma sphering_loaded dframe_path mode lambda_ column_norm values_norm
    sphered_path spherer_path (w : world) sp meta vals features :
  make_spherer mode lambda_ = Ok sp →
  fs w !! dframe_path = Some (FDataset meta vals features) →
  well_shaped meta vals features = true →
  sphering round dframe_path mode lambda_ column_norm values_norm
           sphered_path spherer_path w
  = after_split round sp meta vals features column_norm values_norm
      sphered_path spherer_path
      (mk_world (fs w) (log w ++ [EvSplitParquet dframe_path])).
Proof.
  intros Hsp Hfs Hshape. unfold sphering, after_split.
  rewrite run_bind. unfold lift at 1. rewrite Hsp. lazy beta iota.
  rewrite run_bind, split_parquet_run, Hfs, Hshape. lazy beta iota zeta.
  rewrite run_bind. unfold lift at 1.
  destruct (frame_getitem meta column_norm) as [col|e]; [|done]. lazy beta iota.
  rewrite run_bind. unfold lift at 1.
  destruct (mask_rows vals (isin col values_norm)) as [train|e]; [|done].
  lazy beta iota.
  rewrite run_bind. unfold call_fit at 1. rewrite run_bind. unfold emit at 1.
  lazy beta iota. unfold lift at 1. cbn [fs log].
  destruct (fit sp train) as [sp'|e]; [|done]. lazy beta iota.
  rewrite run_bind. unfold transform_step at 1. rewrite run_bind.
  unfold call_transform at 1. rewrite run_bind. unfold emit at 1.
  lazy beta iota. unfold lift at 1. cbn [fs log].
  destruct (transform sp' vals) as [t|e]; [|done]. lazy beta iota.
  unfold mret, M_ret, ret. lazy beta iota.
  rewrite run_bind. unfold merge_parquet at 1. rewrite run_bind.
  unfold emit at 1. lazy beta iota. cbn [fs log].
  destruct (well_shaped meta (astype round Float32 t) features); [|done].
  unfold write_file at 1. lazy beta iota. cbn [fs log].
  unfold savez_compressed, emit, write_file. rewrite run_bind. done.
Qed.





(** When the column named for the training selection is not a metadata
    column, [sphering] raises the KeyError of the column lookup right
    after loading the dataset: nothing is fitted and nothing written. *)
Theorem sphering_missing_column dframe_path mode lambda_ column_norm values_norm
    sphered_path spherer_path (w : world) sp meta vals features :
  make_spherer mode lambda_ = Ok sp →
  fs w !! dframe_path = Some (FDataset meta vals features) →
  well_shaped meta vals features = true →
  assoc column_norm (columns meta) = None →
  sphering round dframe_path mode lambda_ column_norm values_norm
           sphered_path spherer_path w
  = (Err (KeyError column_norm),
     mk_world (fs w) (log w ++ [EvSplitParquet dframe_path])).
Proof.
  intros Hsp Hfs Hshape Hcol.
  rewrite (sphering_loaded _ _ _ _ _ _ _ _ sp meta vals features) by done.
  unfold after_split, frame_getitem. by rewrite Hcol.
Qed.

(** An exception raised by [fit] on the training rows, or by
    [transform] on the whole matrix, is the outcome of [sphering]; the
    run ends with that call and the file system is unchanged. *)
Theorem sphering_library_error dframe_path mode lambda_ column_norm values_norm
    sphered_path spherer_path (w : world) sp meta vals features col train :
  make_spherer mode lambda_ = Ok sp →
  fs w !! dframe_path = Some (FDataset meta vals features) →
  well_shaped meta vals features = true →
  frame_getitem meta column_norm = Ok col →
  mask_rows vals (isin col values_norm) = Ok train →
  let run := sphering round dframe_path mode lambda_ column_norm values_norm
               sphered_path spherer_path w in
  (∀ e, fit sp train = Err e →
        run = (Err e, mk_world (fs w)
                 (log w ++ [EvSplitParquet dframe_path; EvFit sp train])))
  ∧ (∀ sp' e, fit sp train = Ok sp' → transform sp' vals = Err e →
        run = (Err e, mk_world (fs w)
                 (log w ++ [EvSplitParquet dframe_path; EvFit sp train;
                            EvTransform sp' vals]))).
Proof.
  intros Hsp Hfs Hshape Hcol Htrain run. unfold run.
  rewrite (sphering_loaded _ _ _ _ _ _ _ _ sp meta vals features) by done.
  unfold after_split. rewrite Hcol, Htrain. cbv zeta. cbn [fs log]. split.
  - intros e He. rewrite He. by rewrite <- app_assoc.
  - intros sp' e Hfit He. rewrite Hfit, He. by rewrite <- !app_assoc.
Qed.


(** When the operator archive and the corrected dataset have the same
    path, the archive is written last: after a normal return that path
    holds the operator, and the corrected dataset is lost. *)
Theorem sphering_same_output_path dframe_path mode lambda_ column_norm values_norm
    sphered_path spherer_path (w w' : world) :
  npz_path spherer_path = sphered_path →
  sphering round dframe_path mode lambda_ column_norm values_norm
           sphered_path spherer_path w = (Ok (), w') →
  ∃ sp', fs w' !! sphered_path = Some (FBlob sp')
         ∧ EvSavez spherer_path sp' ∈ log w'.
Proof.
  intros Hpath H. apply sphering_ok_inv in H
    as (sp & meta & vals & features & col & train & sp' & t
        & Hsp & Hfs & Hshape & Hcol & Htrain & Hfit & Ht & Hshape' & ->).
  exists sp'. simpl. rewrite Hpath. split; [apply lookup_insert_eq|set_solver].
Qed.

Lemma select_rows_filter {A} (l : list A) (col : list cell) values :
  length col = length l →
  select_rows l (isin col values)
  = (filter (λ rc : A * cell, existsb (cell_eqb rc.2) values = true) (zip l col)).*1.
Proof.
  revert col. induction l as [|x l IH]; intros [|c col] Hlen; try done.
  simpl in Hlen. injection Hlen as Hlen. simpl.
  rewrite filter_cons. simpl.
  destruct (existsb (cell_eqb c) values) eqn:Hc.
  - rewrite decide_True by done. simpl. f_equal. by apply IH.
  - rewrite decide_False by done. by apply IH.
Qed.

(** The matrix handed to [fit] consists of exactly the rows of the
    dataset whose cell in the selection column is one of the given
    values, in dataset order, with the dtype and width of the dataset;
    the mask has one entry per row. *)
Theorem sphering_training_rows (vals : ndarray) (col values_norm : list cell) train :
  mask_rows vals (isin col values_norm) = Ok train →
  length col = nrows vals
  ∧ adtype train = adtype vals ∧ ncols train = ncols vals
  ∧ rows train = matching_rows vals col values_norm
  ∧ rows train `sublist_of` rows vals.
Proof.
  unfold mask_rows, isin. rewrite length_map.
  destruct (length col =? nrows vals) eqn:Hlen; [|done].
  apply Nat.eqb_eq in Hlen. intros [= <-]. simpl.
  fold (isin col values_norm).
  rewrite select_rows_filter by done. repeat split; try done.
  unfold matching_rows.
  assert (rows vals = (zip (rows vals) col).*1) as Hfst
    by (rewrite fst_zip; [done|unfold nrows in Hlen; lia]).
  rewrite Hfst at 2. apply fmap_sublist, sublist_filter.
Qed.

End SpheringRuns.

(** ** The best-result selector *)

Section SelectBestFacts.
Context {zca : ZCALib}.
Variable sorter : Sorter.

Lemma read_score_run map_file (w : world) :
  (df ← read_parquet map_file;
   col ← lift (frame_getitem df "mean_average_precision");
   lift (column_mean col)) w
  = (read_score (fs w) map_file, after_reads w [map_file]).
Proof.
  unfold read_parquet, read_score, emit, read_file, lift, after_reads,
    mbind, M_bind, bind. simpl.
  destruct (fs w !! map_file) as [f|]; [|done].
  destruct (frame_of_file f) as [df|e]; [|done].
  by destruct (frame_getitem df "mean_average_precision").
Qed.

Lemma after_reads_app (w : world) r1 r2 :
  after_reads (after_reads w r1) r2 = after_reads w (r1 ++ r2).
Proof. unfold after_reads. simpl. by rewrite map_app, app_assoc. Qed.

Lemma score_loop_spec pairs scores (w : world) :
  score_loop pairs scores w
  = (scores_of (fs w) pairs scores, after_reads w (reads_of (fs w) pairs)).
Proof.
  revert scores w. induction pairs as [|[m p] pairs IH]; intros scores w.
  - unfold after_reads. simpl. rewrite app_nil_r. by destruct w.
  - pose proof (read_score_run m w) as Hrun.
    unfold mbind, M_bind, bind, lift in Hrun.
    simpl. unfold mbind, M_bind, bind, lift.
    destruct (read_parquet m w) as [[df|e] w1]; simpl in *.
    + destruct (frame_getitem df "mean_average_precision") as [col|e].
      * injection Hrun as <- ->. destruct (column_mean col) as [x|e]; [|done].
        rewrite IH. simpl. by rewrite after_reads_app.
      * by injection Hrun as <- ->.
    + by injection Hrun as <- ->.
Qed.

(** [select_best] in one equation. *)
Lemma select_best_spec map_files parquet_files best_path (w : world) :
  let pairs := zip map_files parquet_files in
  let w1 := after_reads w (reads_of (fs w) pairs) in
  select_best sorter map_files parquet_files best_path w
  = match scores_of (fs w) pairs [] with
    | Err e => (Err e, w1)
    | Ok scores =>
        match index_last (sorter scores) with
        | Err e => (Err e, w1)
        | Ok best_parquet => shutil_copy best_parquet best_path w1
        end
    end.
Proof.
  intros pairs w1. unfold select_best. fold pairs.
  unfold mbind at 1, M_bind at 1, bind at 1. rewrite score_loop_spec. fold w1.
  destruct (scores_of (fs w) pairs []) as [scores|e]; [|done].
  unfold mbind, M_bind, bind, lift.
  by destruct (index_last (sorter scores)).
Qed.



Lemma sorter_nil : sorter [] = [].
Proof. apply Permutation_nil_r. apply (sort_values_perm sorter). Qed.

Lemma after_reads_nil (w : world) : after_reads w [] = w.
Proof. unfold after_reads. simpl. rewrite app_nil_r. by destruct w. Qed.

Lemma read_score_lacks fsys map_file :
  lacks_score_column fsys map_file →
  read_score fsys map_file = Err (KeyError "mean_average_precision").
Proof.
  intros (f & df & Hf & Hdf & Hcol). unfold read_score, frame_getitem.
  by rewrite Hf, Hdf, Hcol.
Qed.

Lemma scores_of_err fsys pairs scores i m p e :
  pairs !! i = Some (m, p) → read_score fsys m = Err e →
  ∃ e', scores_of fsys pairs scores = Err e'.
Proof.
  revert scores i. induction pairs as [|[m' p'] pairs IH]; intros scores i Hi He.
  - done.
  - simpl. destruct (read_score fsys m') as [x|e'] eqn:Hm'; [|by eexists].
    destruct i as [|i]; simpl in Hi.
    + injection Hi as -> ->. congruence.
    + by eapply IH.
Qed.

(** C8, as the code has it.  [select_best] raises, having only read
    map files (no copy is made and the file system is unchanged), when
    either input list is empty and when a map file that is paired with
    a dataset (one of the first [min (len map_files) (len parquet_files)])
    has no [mean_average_precision] column. *)
Theorem select_best_fails map_files parquet_files best_path (w : world) :
  map_files = [] ∨ parquet_files = []
  ∨ (∃ i m p, zip map_files parquet_files !! i = Some (m, p)
              ∧ lacks_score_column (fs w) m) →
  ∃ e reads,
    select_best sorter map_files parquet_files best_path w
    = (Err e, after_reads w reads).
Proof.
  intros H. rewrite select_best_spec.
  assert (zip map_files parquet_files = []
          ∨ ∃ e, scores_of (fs w) (zip map_files parquet_files) [] = Err e)
    as [Hnil|[e He]].
  { destruct H as [->|[->|(i & m & p & Hi & Hlack)]].
    - by left.
    - left. by destruct map_files.
    - right. eapply scores_of_err; [exact Hi|]. by apply read_score_lacks. }
  - rewrite Hnil. simpl. rewrite sorter_nil. simpl. by eexists _, [].
  - rewrite He. by eexists _, _.
Qed.

Lemma series_setitem_fresh (s : Series) k v :
  k ∉ s.*1 → series_setitem s k v = s ++ [(k, v)].
Proof.
  induction s as [|[k' v'] s IH]; simpl; [done|]. intros Hk.
  destruct (String.eqb k k') eqn:Heq.
  - apply String.eqb_eq in Heq as ->. exfalso. apply Hk. left.
  - rewrite IH; [done|]. intros Hin. apply Hk. by right.
Qed.

Lemma scores_of_distinct fsys pairs xs (scores : Series) :
  Forall2 (λ pair x, read_score fsys pair.1 = Ok x) pairs xs →
  NoDup (scores.*1 ++ pairs.*2) →
  scores_of fsys pairs scores = Ok (scores ++ zip pairs.*2 xs).
Proof.
  intros Hall. revert scores.
  induction Hall as [|[m p] x pairs xs Hx Hall IH]; intros scores Hnd; simpl.
  - by rewrite app_nil_r.
  - simpl in Hx. rewrite Hx. apply NoDup_app in Hnd as (Hs & Hdisj & Hp).
    apply NoDup_cons in Hp as [Hp Hps].
    rewrite series_setitem_fresh by (intros Hin; apply (Hdisj _ Hin); left).
    rewrite IH.
    + by rewrite <- app_assoc.
    + rewrite fmap_app. simpl. rewrite <- app_assoc. simpl.
      apply NoDup_app. split; [done|]. split; [|by apply NoDup_cons].
      intros y Hy. apply Hdisj. done.
Qed.

Lemma reads_of_all fsys pairs xs :
  Forall2 (λ pair x, read_score fsys pair.1 = Ok x) pairs xs →
  reads_of fsys pairs = pairs.*1.
Proof.
  induction 1 as [|[m p] x pairs xs Hx Hall IH]; simpl; [done|].
  simpl in Hx. by rewrite Hx, IH.
Qed.




End SelectBestFacts.

(** ** More on the best-result selector *)

Section SelectBestRuns.
Context {zca : ZCALib}.

Lemma shutil_copy_cases src dst (w : world) :
  let w1 := mk_world (fs w) (log w ++ [EvCopy src dst]) in
  shutil_copy src dst w
  = match fs w !! src with
    | None => (Err (FileNotFoundError src), w1)
    | Some f =>
        if String.eqb src dst then (Err (SameFileError src), w1)
        else (Ok (), mk_world (<[dst := f]> (fs w)) (log w1))
    end.
Proof.
  unfold shutil_copy, emit, read_file, write_file, mbind, M_bind, bind. simpl.
  destruct (fs w !! src) as [f|]; [|done]. by destruct (String.eqb src dst).
Qed.

Lemma series_setitem_labels (s : Series) k v p :
  p ∈ (series_setitem s k v).*1 ↔ p ∈ s.*1 ∨ p = k.
Proof.
  induction s as [|[k' v'] s IH]; simpl.
  - rewrite list_elem_of_singleton. split; [by right|].
    intros [H|H]; [by apply elem_of_nil in H|done].
  - destruct (String.eqb k k') eqn:Hk; simpl.
    + apply String.eqb_eq in Hk as ->. rewrite !elem_of_cons. tauto.
    + rewrite !elem_of_cons, IH. tauto.
Qed.

Lemma scores_of_labels fsys pairs (s s' : Series) :
  scores_of fsys pairs s = Ok s' →
  ∀ p, p ∈ s'.*1 ↔ p ∈ s.*1 ∨ p ∈ pairs.*2.
Proof.
  revert s. induction pairs as [|[m k] pairs IH]; intros s Hs p; simpl in *.
  - injection Hs as <-. split; [by left|].
    intros [H|H]; [done|by apply elem_of_nil in H].
  - destruct (read_score fsys m) as [x|e]; [|done].
    rewrite (IH _ Hs), series_setitem_labels, elem_of_cons. tauto.
Qed.

(** [select_best] changes no file but the best path, and the file it
    puts there is one of the paired datasets, as it was stored: a run
    that raises leaves the file system unchanged, and a run that
    returns normally has copied [parquet_files[i]] for some paired
    position [i].  This holds whatever algorithm sorts the scores. *)
Theorem select_best_frame (sorter : Sorter) map_files parquet_files best_path
    (w w' : world) r :
  select_best sorter map_files parquet_files best_path w = (r, w') →
  (∀ p, p ≠ best_path → fs w' !! p = fs w !! p)
  ∧ (r ≠ Ok () → fs w' = fs w)
  ∧ (r = Ok () →
     ∃ i m best f,
       zip map_files parquet_files !! i = Some (m, best)
       ∧ fs w !! best = Some f ∧ best ≠ best_path
       ∧ fs w' = <[best_path := f]> (fs w)).
Proof.
  rewrite select_best_spec. cbv zeta.
  destruct (scores_of _ _ _) as [scores|e] eqn:Hscores.
  2: { intros [= <- <-]. repeat split; done. }
  unfold index_last.
  destruct (last (sorter scores)) as [e|] eqn:Hlast.
  2: { intros [= <- <-]. repeat split; done. }
  rewrite shutil_copy_cases. cbv zeta. simpl fs.
  destruct (fs w !! e.1) as [f|] eqn:Hf.
  2: { intros [= <- <-]. repeat split; done. }
  destruct (String.eqb e.1 best_path) eqn:Hsame.
  { intros [= <- <-]. repeat split; done. }
  intros [= <- <-]. simpl. split; [|split; [done|]].
  - intros p Hp. by rewrite lookup_insert_ne.
  - intros _. apply String.eqb_neq in Hsame.
    assert (e.1 ∈ (zip map_files parquet_files).*2) as Hin.
    { pose proof (scores_of_labels _ _ _ _ Hscores e.1) as Hl.
      apply last_Some_elem_of in Hlast.
      rewrite (sort_values_perm sorter scores) in Hlast.
      destruct (proj1 Hl) as [Hnil|Hin]; [|by apply elem_of_nil in Hnil|done].
      by apply list_elem_of_fmap_2. }
    apply list_elem_of_lookup in Hin as [i Hi].
    apply list_lookup_fmap_Some in Hi as ([m p] & Hp & Hi). simpl in Hp.
    subst p. by exists i, m, e.1, f.
Qed.

(** When every paired map can be read and the dataset paths are
    pairwise distinct, the series of scores lists the datasets in
    order and [select_best] goes on to copy the last sorted entry. *)
Lemma select_best_reads_ok (sorter : Sorter) map_files parquet_files best_path
    (w : world) xs :
  let pairs := zip map_files parquet_files in
  Forall2 (λ pair x, read_score (fs w) pair.1 = Ok x) pairs xs →
  NoDup pairs.*2 → pairs ≠ [] →
  ∃ e, last (sorter (zip pairs.*2 xs)) = Some e
       ∧ select_best sorter map_files parquet_files best_path w
         = shutil_copy e.1 best_path (after_reads w pairs.*1).
Proof.
  intros pairs Hall Hnd Hne.
  pose proof (Forall2_length _ _ _ Hall) as Hlen.
  assert (is_Some (last (sorter (zip pairs.*2 xs)))) as [e He].
  { apply last_is_Some. intros Hnil.
    pose proof (Permutation_length (sort_values_perm sorter (zip pairs.*2 xs))) as Hl.
    rewrite Hnil in Hl. simpl in Hl.
    rewrite length_zip_with, length_fmap, <- Hlen in Hl.
    destruct pairs; [done|simpl in Hl; lia]. }
  exists e. split; [done|].
  rewrite select_best_spec. fold pairs.
  rewrite (scores_of_distinct _ _ _ [] Hall Hnd). simpl.
  unfold index_last. rewrite He. by rewrite (reads_of_all _ _ _ Hall).
Qed.

(** The last sorted entry carries a score that no entry exceeds. *)
Lemma last_choice (sorter : Sorter) (ks : list string) (xs : list float) e :
  length ks = length xs →
  last (sorter (zip ks xs)) = Some e →
  ∃ i, ks !! i = Some e.1 ∧ xs !! i = Some e.2
       ∧ ∀ j x', xs !! j = Some x' → score_le x' e.2 = true.
Proof.
  intros Hlen Hlast.
  pose proof (last_sorted_max sorter _ _ Hlast) as Hmax.
  apply last_Some_elem_of in Hlast.
  rewrite (sort_values_perm sorter _) in Hlast.
  apply list_elem_of_lookup in Hlast as [i Hi].
  apply lookup_zip_with_Some in Hi as (k & x & -> & Hk & Hx).
  exists i. repeat split; try done.
  intros j x' Hj.
  assert (is_Some (ks !! j)) as [k' Hk'].
  { apply lookup_lt_is_Some. rewrite Hlen. by eapply lookup_lt_Some. }
  apply (Hmax (k', x')). apply list_elem_of_lookup. exists j.
  apply lookup_zip_with_Some. by exists k', x'.
Qed.

Lemma shutil_copy_log src dst (w : world) :
  log (shutil_copy src dst w).2 = log w ++ [EvCopy src dst].
Proof.
  rewrite shutil_copy_cases. cbv zeta.
  destruct (fs w !! src); [|done]. by destruct (String.eqb src dst).
Qed.

(** With pairwise distinct dataset paths and readable maps, the
    dataset [select_best] tries to copy has a mean that no other mean
    exceeds in the order of [sort_values] (numbers ascending, NaN
    last), whatever algorithm sorts the scores, stable or not. *)
Theorem select_best_maximal (sorter : Sorter) map_files parquet_files best_path
    (w : world) xs :
  let pairs := zip map_files parquet_files in
  let run := select_best sorter map_files parquet_files best_path w in
  Forall2 (λ pair x, read_score (fs w) pair.1 = Ok x) pairs xs →
  NoDup pairs.*2 → pairs ≠ [] →
  ∃ i m best x,
    pairs !! i = Some (m, best) ∧ xs !! i = Some x
    ∧ (∀ j x', xs !! j = Some x' → score_le x' x = true)
    ∧ log run.2 = log w ++ map EvReadParquet pairs.*1 ++ [EvCopy best best_path].
Proof.
  intros pairs run Hall Hnd Hne. unfold run.
  destruct (select_best_reads_ok sorter map_files parquet_files best_path
              w xs Hall Hnd Hne) as (e & He & ->).
  pose proof (Forall2_length _ _ _ Hall) as Hlen.
  destruct (last_choice sorter pairs.*2 xs e) as (i & Hk & Hx & Hmax);
    [by rewrite length_fmap|done|].
  apply list_lookup_fmap_Some in Hk as ([m p] & Hp & Hk). simpl in Hp. subst p.
  exists i, m, e.1, e.2. repeat split; try done.
  rewrite shutil_copy_log. unfold after_reads. simpl. by rewrite <- app_assoc.
Qed.


(** When no two means are tied the result does not depend on the
    sorting algorithm: any two sorters that meet the contract of
    [sort_values] make [select_best] behave identically. *)
Theorem select_best_sorter_irrelevant (sorter1 sorter2 : Sorter)
    map_files parquet_files best_path (w : world) xs :
  let pairs := zip map_files parquet_files in
  Forall2 (λ pair x, read_score (fs w) pair.1 = Ok x) pairs xs →
  NoDup pairs.*2 →
  (∀ i j x y, xs !! i = Some x → xs !! j = Some y → i ≠ j → tied x y = false) →
  select_best sorter1 map_files parquet_files best_path w
  = select_best sorter2 map_files parquet_files best_path w.
Proof.
  intros pairs Hall Hnd Hties.
  destruct (decide (pairs = [])) as [Hnil|Hne].
  { rewrite !select_best_spec. fold pairs. rewrite Hnil. simpl.
    by rewrite !sorter_nil. }
  destruct (select_best_reads_ok sorter1 map_files parquet_files best_path
              w xs Hall Hnd Hne) as (e1 & He1 & ->).
  destruct (select_best_reads_ok sorter2 map_files parquet_files best_path
              w xs Hall Hnd Hne) as (e2 & He2 & ->).
  pose proof (Forall2_length _ _ _ Hall) as Hlen.
  destruct (last_choice sorter1 pairs.*2 xs e1) as (i1 & Hk1 & Hx1 & Hmax1);
    [by rewrite length_fmap|done|].
  destruct (last_choice sorter2 pairs.*2 xs e2) as (i2 & Hk2 & Hx2 & Hmax2);
    [by rewrite length_fmap|done|].
  destruct (decide (i1 = i2)) as [->|Hneq]; [congruence|].
  pose proof (Hties _ _ _ _ Hx1 Hx2 Hneq) as Ht. unfold tied in Ht.
  rewrite (Hmax2 _ _ Hx1), (Hmax1 _ _ Hx2) in Ht. done.
Qed.

Lemma assoc_series_setitem_eq (s : Series) k v :
  assoc k (series_setitem s k v) = Some v.
Proof.
  induction s as [|[k' v'] s IH]; simpl.
  - by rewrite String.eqb_refl.
  - destruct (String.eqb k k') eqn:Hk; simpl; [by rewrite String.eqb_refl|].
    by rewrite Hk.
Qed.

Lemma assoc_series_setitem_ne (s : Series) k v p :
  p ≠ k → assoc p (series_setitem s k v) = assoc p s.
Proof.
  intros Hne. apply String.eqb_neq in Hne.
  induction s as [|[k' v'] s IH]; simpl.
  - by rewrite Hne.
  - destruct (String.eqb k k') eqn:Hk; simpl.
    + apply String.eqb_eq in Hk as ->. by rewrite Hne.
    + by rewrite IH.
Qed.

Lemma series_setitem_NoDup (s : Series) k v :
  NoDup s.*1 → NoDup (series_setitem s k v).*1.
Proof.
  induction s as [|[k' v'] s IH]; simpl; intros Hnd.
  - apply NoDup_singleton.
  - apply NoDup_cons in Hnd as [Hk' Hnd].
    destruct (String.eqb k k') eqn:Hk; simpl.
    + apply String.eqb_eq in Hk as ->. by apply NoDup_cons.
    + apply NoDup_cons. split; [|by apply IH].
      rewrite series_setitem_labels. intros [H| ->]; [done|].
      by rewrite String.eqb_refl in Hk.
Qed.

Lemma scores_of_keeps fsys pairs (s s' : Series) p :
  scores_of fsys pairs s = Ok s' → p ∉ pairs.*2 → assoc p s' = assoc p s.
Proof.
  revert s. induction pairs as [|[m k] pairs IH]; intros s Hs Hp; simpl in *.
  - by injection Hs as <-.
  - destruct (read_score fsys m) as [x|e]; [|done].
    rewrite (IH _ Hs) by (intros H; apply Hp; by right).
    apply assoc_series_setitem_ne. intros ->. apply Hp. left.
Qed.

Lemma scores_of_NoDup fsys pairs (s s' : Series) :
  scores_of fsys pairs s = Ok s' → NoDup s.*1 → NoDup s'.*1.
Proof.
  revert s. induction pairs as [|[m k] pairs IH]; intros s Hs Hnd; simpl in *.
  - by injection Hs as <-.
  - destruct (read_score fsys m) as [x|e]; [|done].
    eapply IH; [done|]. by apply series_setitem_NoDup.
Qed.

(** The series of scores has one entry per distinct dataset path, and
    a dataset path that is listed more than once is scored by the
    evaluation map of its last occurrence: the earlier scores are
    overwritten. *)
Theorem select_best_last_score_counts fsys (pairs : list (string * string))
    (scores : Series) :
  scores_of fsys pairs [] = Ok scores →
  NoDup scores.*1
  ∧ (∀ p, p ∈ scores.*1 ↔ p ∈ pairs.*2)
  ∧ ∀ i m p x,
      pairs !! i = Some (m, p) → read_score fsys m = Ok x →
      (∀ j m', i < j → pairs !! j ≠ Some (m', p)) →
      assoc p scores = Some x.
Proof.
  intros Hs. split; [|split].
  - eapply scores_of_NoDup; [done|]. apply NoDup_nil_2.
  - intros p. rewrite (scores_of_labels _ _ _ _ Hs). split; [|by right].
    intros [H|H]; [by apply elem_of_nil in H|done].
  - revert Hs. generalize (@nil (string * float)). revert scores.
    induction pairs as [|[m0 p0] pairs IH]; intros scores s0 Hs i m p x Hi Hx Hlast.
    + done.
    + simpl in Hs. destruct (read_score fsys m0) as [x0|e] eqn:Hm0; [|done].
      destruct i as [|i]; simpl in Hi.
      * injection Hi as <- <-. rewrite Hx in Hm0. injection Hm0 as <-.
        rewrite (scores_of_keeps _ _ _ _ p0 Hs); [apply assoc_series_setitem_eq|].
        intros Hin. apply list_elem_of_lookup in Hin as [j Hj].
        apply list_lookup_fmap_Some in Hj as ([m' p'] & Hp' & Hj). simpl in Hp'.
        subst p'. apply (Hlast (S j) m'); [lia|done].
      * eapply (IH _ _ Hs i m p x Hi Hx).
        intros j m' Hlt. apply (Hlast (S j) m'). lia.
Qed.

Lemma scores_of_first_error fsys pre m p rest xs (s : Series) e :
  Forall2 (λ pair x, read_score fsys pair.1 = Ok x) pre xs →
  read_score fsys m = Err e →
  scores_of fsys (pre ++ (m, p) :: rest) s = Err e
  ∧ reads_of fsys (pre ++ (m, p) :: rest) = pre.*1 ++ [m].
Proof.
  intros Hall He. revert s.
  induction Hall as [|[m0 p0] x0 pre xs Hx Hall IH]; intros s; simpl.
  - by rewrite He.
  - simpl in Hx. rewrite Hx. destruct (IH (series_setitem s p0 x0)) as [-> ->].
    done.
Qed.

(** The map files are read in order and the first one that cannot be
    read (missing file, missing column, text in the column) ends the
    run with its error: the later map files are not read and no file
    is copied. *)
Theorem select_best_first_error (sorter : Sorter) map_files parquet_files
    best_path (w : world) pre m p rest xs e :
  zip map_files parquet_files = pre ++ (m, p) :: rest →
  Forall2 (λ pair x, read_score (fs w) pair.1 = Ok x) pre xs →
  read_score (fs w) m = Err e →
  select_best sorter map_files parquet_files best_path w
  = (Err e, after_reads w (pre.*1 ++ [m])).
Proof.
  intros Hzip Hall He. rewrite select_best_spec. cbv zeta. rewrite Hzip.
  destruct (scores_of_first_error (fs w) pre m p rest xs [] e Hall He) as [-> ->].
  done.
Qed.

End SelectBestRuns.

(** ** The registry and the correction units *)

Lemma assoc_dict_setitem {A} (d : list (string * A)) k v :
  assoc k (dict_setitem d k v) = Some v.
Proof.
  induction d as [|[k' v'] d IH]; simpl.
  - by rewrite String.eqb_refl.
  - destruct (String.eqb k k') eqn:Hk; simpl; [by rewrite String.eqb_refl|].
    by rewrite Hk.
Qed.


Lemma entries_array_sub a m :
  entries (array_sub a m) = map (λ x, fsub x m) (entries a).
Proof. unfold entries, array_sub. simpl. by rewrite concat_map. Qed.


Section UnitFacts.
Context {lib : Integrators}.

(** C4.  Whatever the batch and label keys, the registry has exactly
    the seven documented names; looking up one of them succeeds and
    looking up any other name is a KeyError. *)
Theorem get_method_map_names batch_key label_key :
  dom (get_method_map batch_key label_key) = method_names
  ∧ ∀ name,
      (name ∈ method_names →
       ∃ p, dict_getitem (get_method_map batch_key label_key) name = Ok p)
      ∧ (name ∉ method_names →
         dict_getitem (get_method_map batch_key label_key) name
         = Err (KeyError name)).
Proof.
  assert (dom (get_method_map batch_key label_key) = method_names) as Hdom.
  { unfold get_method_map, method_names. rewrite dom_list_to_map_L. simpl.
    set_solver. }
  split; [done|]. intros name. unfold dict_getitem. rewrite <- Hdom. split.
  - intros [p Hp]%elem_of_dom. rewrite Hp. by exists p.
  - intros Hp%not_elem_of_dom. by rewrite Hp.
Qed.

Lemma identity_run adata batch_key corrected_embed (h : heap) obj :
  adatas h !! adata = Some obj →
  identity adata batch_key corrected_embed h
  = (Ok (), mk_heap (arrays h)
              (<[adata := mk_adata (X obj) (obs obj)
                            (dict_setitem (obsm obj) corrected_embed (X obj))]>
                 (adatas h))).
Proof.
  intros Hobj. unfold identity, obsm_setitem, get_adata, set_adata,
    mbind, M_bind, bind. rewrite Hobj. simpl. by rewrite Hobj.
Qed.

(** C7.  The registry entry 'sphering' is [identity] with the batch key
    bound.  Called on a dataset it returns normally; afterwards the
    slot [corrected_embed] of the dataset refers to the array [X]
    itself, and no array of the store has been changed or added: the
    raw feature matrix is in the slot untransformed. *)
Theorem sphering_unit_is_identity batch_key label_key adata corrected_embed
    (h : heap) obj :
  adatas h !! adata = Some obj →
  ∃ p h',
    dict_getitem (get_method_map batch_key label_key) "sphering" = Ok p
    ∧ call_partial p adata corrected_embed h = (Ok (), h')
    ∧ arrays h' = arrays h
    ∧ ∃ slots, adatas h' !! adata = Some (mk_adata (X obj) (obs obj) slots)
               ∧ assoc corrected_embed slots = Some (X obj).
Proof.
  intros Hobj. eexists (mk_partial fn_identity batch_key None), _.
  split; [vm_compute; reflexivity|]. unfold call_partial. simpl.
  rewrite (identity_run _ _ _ _ obj Hobj). split; [done|]. split; [done|].
  simpl. eexists. split.
  - apply list_lookup_insert_eq. by eapply lookup_lt_Some.
  - apply assoc_dict_setitem.
Qed.

Lemma bind_run {S A B} (c : M S A) (k : A → M S B) s :
  (c ≫= k) s = match c s with
               | (Ok a, s') => k a s'
               | (Err e, s') => (Err e, s')
               end.
Proof. done. Qed.

Lemma get_adata_run arrs ads r obj :
  ads !! r = Some obj →
  get_adata r (mk_heap arrs ads) = (Ok obj, mk_heap arrs ads).
Proof. intros H. unfold get_adata. simpl. by rewrite H. Qed.

Lemma load_run arrs ads l a :
  arrs !! l = Some a → load l (mk_heap arrs ads) = (Ok a, mk_heap arrs ads).
Proof. intros H. unfold load. simpl. by rewrite H. Qed.

Lemma lookup_snoc_length {A} (l : list A) x k : (l ++ x :: k) !! length l = Some x.
Proof. by apply list_lookup_middle. Qed.

Lemma insert_snoc_length {A} (l : list A) x y k :
  <[length l := y]> (l ++ x :: k) = l ++ y :: k.
Proof.
  rewrite insert_app_r_alt by lia. by rewrite Nat.sub_diag.
Qed.

(** [scvi] in one equation. *)
Lemma scvi_run adata batch_key corrected_embed label_key (h : heap) obj x :
  adatas h !! adata = Some obj → arrays h !! X obj = Some x →
  scvi adata batch_key corrected_embed label_key h
  = match copy_obsm (arrays h) (S (length (arrays h))) (obsm obj) with
    | Err e => (Err e, h)
    | Ok (slots, news) =>
        let n := length (arrays h) in
        match array_min x with
        | Err e =>
            (Err e, mk_heap (arrays h ++ x :: news)
                            (adatas h ++ [mk_adata n (obs obj) slots]))
        | Ok m =>
            let x' := array_sub x m in
            match setup_anndata x' (obs obj) batch_key label_key with
            | Err e =>
                (Err e, mk_heap (arrays h ++ x' :: news)
                                (adatas h ++ [mk_adata n (obs obj) slots]))
            | Ok obs' =>
                let trained := adatas h ++ [mk_adata n obs' slots] in
                match fit_latent x' obs' 2 30 with
                | Err e => (Err e, mk_heap (arrays h ++ x' :: news) trained)
                | Ok latent =>
                    (Ok (),
                     mk_heap
                       ((arrays h ++ x' :: news) ++ [latent])
                       (<[adata := mk_adata (X obj) (obs obj)
                            (dict_setitem (obsm obj) corrected_embed
                               (length (arrays h ++ x' :: news)))]> trained))
                end
            end
        end
    end.
Proof.
  intros Hobj Hx. unfold scvi. lazy zeta.
  rewrite bind_run. unfold copy at 1. rewrite Hobj, Hx.
  destruct (copy_obsm _ _ _) as [[slots news]|e]; [|done]. lazy beta iota.
  rewrite bind_run, (get_adata_run _ _ _ _ (lookup_snoc_length (adatas h) _ [])).
  lazy beta iota. cbn [arrays adatas X obs obsm].
  rewrite bind_run, (load_run _ _ _ _ (lookup_snoc_length (arrays h) _ _)).
  lazy beta iota. rewrite bind_run. unfold lift at 1.
  destruct (array_min x) as [m|e]; [|done]. lazy beta iota.
  rewrite bind_run. unfold store at 1. lazy beta iota. cbn [arrays adatas X obs obsm].
  rewrite (insert_snoc_length (arrays h)).
  rewrite bind_run. unfold call_setup_anndata at 1.
  rewrite bind_run, (get_adata_run _ _ _ _ (lookup_snoc_length (adatas h) _ [])).
  lazy beta iota. cbn [arrays adatas X obs obsm].
  rewrite bind_run, (load_run _ _ _ _ (lookup_snoc_length (arrays h) _ _)).
  lazy beta iota. rewrite bind_run. unfold lift at 1.
  destruct (setup_anndata _ _ _ _) as [obs'|e]; [|done]. lazy beta iota.
  unfold set_adata at 1. lazy beta iota. cbn [arrays adatas X obs obsm].
  rewrite (insert_snoc_length (adatas h)).
  rewrite bind_run. unfold call_SCVI at 1.
  rewrite bind_run, (get_adata_run _ _ _ _ (lookup_snoc_length (adatas h) _ [])).
  lazy beta iota. cbn [arrays adatas X obs obsm].
  rewrite bind_run, (load_run _ _ _ _ (lookup_snoc_length (arrays h) _ _)).
  lazy beta iota. unfold lift at 1, fit_latent.
  destruct (SCVI _ _ _ _) as [vae|e]; [|done]. lazy beta iota.
  rewrite bind_run. unfold lift at 1.
  destruct (view_anndata_setup vae) as [[]|e]; [|done]. lazy beta iota.
  rewrite bind_run. unfold lift at 1.
  destruct (train vae) as [vae'|e]; [|done]. lazy beta iota.
  rewrite bind_run. unfold lift at 1.
  destruct (get_latent_representation vae') as [latent|e]; [|done]. lazy beta iota.
  rewrite bind_run. unfold alloc at 1. lazy beta iota. cbn [arrays adatas X obs obsm].
  unfold obsm_setitem. rewrite bind_run.
  erewrite get_adata_run; cycle 1.
  { simpl. rewrite lookup_app_l by by eapply lookup_lt_Some. exact Hobj. }
  done.
Qed.


End UnitFacts.

(** ** More on the registry and the correction units *)

Lemma fmin_nan_l y : fmin NaN y = NaN.
Proof. done. Qed.

Lemma foldl_fmin_nan xs : foldl fmin NaN xs = NaN.
Proof. induction xs as [|x xs IH]; simpl; [done|]. apply IH. Qed.

Lemma foldl_fmin_has_nan x xs : NaN ∈ x :: xs → foldl fmin x xs = NaN.
Proof.
  revert x. induction xs as [|y xs IH]; intros x Hin.
  - apply list_elem_of_singleton in Hin as <-. done.
  - simpl. apply elem_of_cons in Hin as [<-|Hin].
    + apply foldl_fmin_nan.
    + destruct x as [|p]; [apply foldl_fmin_nan|].
      apply elem_of_cons in Hin as [<-|Hin]; [apply foldl_fmin_nan|].
      destruct y as [|q]; [apply foldl_fmin_nan|].
      simpl. destruct (Qle_bool p q); apply IH; by right.
Qed.




(** A single NaN in the feature matrix makes its minimum NaN, and the
    shifted matrix that [scvi] trains on is then NaN everywhere. *)
Theorem nan_poisons_shift (x : ndarray) :
  NaN ∈ entries x →
  array_min x = Ok NaN
  ∧ Forall (λ v, v = NaN) (entries (array_sub x NaN)).
Proof.
  intros Hin. split.
  - unfold array_min. destruct (entries x) as [|v vs].
    + by apply elem_of_nil in Hin.
    + by rewrite foldl_fmin_has_nan.
  - rewrite entries_array_sub. apply Forall_fmap, Forall_forall.
    intros v _. by destruct v.
Qed.

Section UnitRuns.
Context {lib : Integrators}.

Lemma registry_lookup batch_key label_key name p :
  dict_getitem (get_method_map batch_key label_key) name = Ok p →
  (name, p) ∈
    [("harmony", mk_partial fn_harmony batch_key None);
     ("mnn", mk_partial fn_mnn batch_key None);
     ("scanorama", mk_partial fn_scanorama batch_key None);
     ("combat", mk_partial fn_combat batch_key None);
     ("desc", mk_partial fn_desc batch_key None);
     ("sphering", mk_partial fn_identity batch_key None);
     ("scvi", mk_partial fn_scvi batch_key (Some label_key))].
Proof.
  unfold dict_getitem, get_method_map.
  destruct (list_to_map _ !! name) as [p'|] eqn:Hp; [|done].
  intros [= ->]. apply elem_of_list_to_map in Hp; [done|].
  simpl. apply (bool_decide_unpack _). vm_compute. exact I.
Qed.

(** Every entry of the registry binds the batch key it was built with,
    only the entry 'scvi' binds the label key, 'sphering' is the one
    name that stands for [identity], and no name reaches [trvaep]. *)
Theorem get_method_map_entries batch_key label_key name p :
  dict_getitem (get_method_map batch_key label_key) name = Ok p →
  kw_batch_key p = batch_key
  ∧ kw_label_key p = (if String.eqb name "scvi" then Some label_key else None)
  ∧ (pfunc p = fn_identity ↔ name = "sphering")
  ∧ (pfunc p = fn_scvi ↔ name = "scvi")
  ∧ pfunc p ≠ fn_trvaep.
Proof.
  intros Hp%registry_lookup. rewrite !elem_of_cons in Hp.
  destruct Hp as [Hp|[Hp|[Hp|[Hp|[Hp|[Hp|[Hp|Hp]]]]]]];
    [..|by apply elem_of_nil in Hp];
    injection Hp as -> ->; repeat split; done.
Qed.


Lemma assoc_dict_setitem_ne {A} (d : list (string * A)) k v k' :
  k' ≠ k → assoc k' (dict_setitem d k v) = assoc k' d.
Proof.
  intros Hne. apply String.eqb_neq in Hne.
  induction d as [|[k0 v0] d IH]; simpl.
  - by rewrite Hne.
  - destruct (String.eqb k k0) eqn:Hk; simpl.
    + apply String.eqb_eq in Hk as ->. by rewrite Hne.
    + by rewrite IH.
Qed.

Lemma dict_setitem_twice {A} (d : list (string * A)) k v :
  dict_setitem (dict_setitem d k v) k v = dict_setitem d k v.
Proof.
  induction d as [|[k0 v0] d IH]; simpl.
  - by rewrite String.eqb_refl.
  - destruct (String.eqb k k0) eqn:Hk; simpl.
    + by rewrite String.eqb_refl.
    + by rewrite Hk, IH.
Qed.

Lemma identity_result adata batch_key corrected_embed (h : heap) obj :
  adatas h !! adata = Some obj →
  identity adata batch_key corrected_embed h
  = (Ok (), mk_heap (arrays h)
              (<[adata := mk_adata (X obj) (obs obj)
                            (dict_setitem (obsm obj) corrected_embed (X obj))]>
                 (adatas h))).
Proof.
  intros Hobj. unfold identity, obsm_setitem, get_adata, set_adata,
    mbind, M_bind, bind. rewrite Hobj. simpl. by rewrite Hobj.
Qed.

(** [identity] touches one slot of one dataset: every other slot of the
    dataset, its observations and its matrix reference, every other
    dataset and every array stay as they were; a slot that already
    exists keeps its place among the slots. *)
Theorem identity_frame adata batch_key corrected_embed (h : heap) obj :
  adatas h !! adata = Some obj →
  ∃ h' slots,
    identity adata batch_key corrected_embed h = (Ok (), h')
    ∧ arrays h' = arrays h
    ∧ adatas h' !! adata = Some (mk_adata (X obj) (obs obj) slots)
    ∧ (∀ k, k ≠ corrected_embed → assoc k slots = assoc k (obsm obj))
    ∧ (is_Some (assoc corrected_embed (obsm obj)) → slots.*1 = (obsm obj).*1)
    ∧ (∀ r, r ≠ adata → adatas h' !! r = adatas h !! r).
Proof.
  intros Hobj. eexists _, _. split; [by apply identity_result|]. simpl.
  split; [done|]. split.
  { apply list_lookup_insert_eq. by eapply lookup_lt_Some. }
  split; [|split].
  - intros k Hk. by apply assoc_dict_setitem_ne.
  - generalize (obsm obj) (X obj). intros d v [v0 Hv0].
    induction d as [|[k0 v1] d IH]; simpl in *; [done|].
    destruct (String.eqb corrected_embed k0) eqn:Hk; simpl.
    + apply String.eqb_eq in Hk as ->. done.
    + f_equal. by apply IH.
  - intros r Hr. by apply list_lookup_insert_ne.
Qed.

(** Running [identity] a second time changes nothing. *)
Theorem identity_idempotent adata batch_key corrected_embed (h : heap) obj :
  adatas h !! adata = Some obj →
  let h1 := (identity adata batch_key corrected_embed h).2 in
  identity adata batch_key corrected_embed h1 = (Ok (), h1).
Proof.
  intros Hobj h1. unfold h1. rewrite (identity_result _ _ _ _ obj Hobj). simpl.
  erewrite identity_result; cycle 1.
  { simpl. apply list_lookup_insert_eq. by eapply lookup_lt_Some. }
  simpl. by rewrite dict_setitem_twice, list_insert_insert_eq.
Qed.

(** When [scvi] raises, the dataset it was called on is exactly as
    before: no slot has been added.  It raises in particular on a
    matrix without entries (no observation or no feature), whose
    minimum does not exist. *)
Theorem scvi_error_leaves_dataset adata batch_key corrected_embed label_key
    (h h' : heap) obj x r :
  adatas h !! adata = Some obj → arrays h !! X obj = Some x →
  scvi adata batch_key corrected_embed label_key h = (r, h') →
  (entries x = [] → r ≠ Ok ())
  ∧ (r ≠ Ok () → adatas h' !! adata = Some obj).
Proof.
  intros Hobj Hx Hrun. rewrite (scvi_run _ _ _ _ _ obj x Hobj Hx) in Hrun.
  assert (adata < length (adatas h)) as Hlt by by eapply lookup_lt_Some.
  assert (∀ k, (adatas h ++ k) !! adata = Some obj) as Hsame
    by (intros k; by rewrite lookup_app_l).
  destruct (copy_obsm _ _ _) as [[slots news]|e].
  2: { injection Hrun as <- <-. split; [done|intros _; done]. }
  simpl in Hrun. unfold array_min in Hrun.
  destruct (entries x) as [|v vs] eqn:Hentries.
  { injection Hrun as <- <-. split; [done|intros _; apply Hsame]. }
  destruct (setup_anndata _ _ _ _) as [obs'|e].
  2: { injection Hrun as <- <-. split; [done|intros _; apply Hsame]. }
  destruct (fit_latent _ _ _ _) as [latent|e].
  2: { injection Hrun as <- <-. split; [done|intros _; apply Hsame]. }
  injection Hrun as <- <-. split; [done|]. by intros [].
Qed.

End UnitRuns.

(** ** [harmony] and [trvaep] *)

Lemma transpose_shape (a : ndarray) :
  nrows (transpose a) = ncols a ∧ ncols (transpose a) = nrows a
  ∧ rect (transpose a) = true.
Proof.
  unfold transpose, nrows, rect, column. simpl.
  rewrite length_map, length_seq. repeat split.
  apply forallb_forall. intros r Hr. apply in_map_iff in Hr as (j & <- & _).
  rewrite length_map. apply Nat.eqb_refl.
Qed.

Section MoreUnitFacts.
Context {emb : Embedders}.
Variable round : dtype → float → float.

(** [harmony] in one equation. *)
Lemma harmony_run adata batch_key corrected_embed (h : heap) obj x :
  adatas h !! adata = Some obj → arrays h !! X obj = Some x →
  harmony adata batch_key corrected_embed h
  = match pca x (n_latent_of_shape x) with
    | Err e => (Err e, h)
    | Ok e =>
        let n := length (arrays h) in
        let with_pca := dict_setitem (obsm obj) "X_pca" n in
        match run_harmony e (obs obj) batch_key 20 300 with
        | Err e' =>
            (Err e', mk_heap (arrays h ++ [e])
                       (<[adata := mk_adata (X obj) (obs obj) with_pca]> (adatas h)))
        | Ok z_corr =>
            (Ok (),
             mk_heap ((arrays h ++ [e]) ++ [transpose z_corr])
               (<[adata := mk_adata (X obj) (obs obj)
                             (dict_setitem with_pca corrected_embed (S n))]>
                  (adatas h)))
        end
    end.
Proof.
  intros Hobj Hx. destruct h as [arrs ads]. simpl in Hobj, Hx.
  assert (adata < length ads) as Hlt by by eapply lookup_lt_Some.
  unfold harmony. cbn [arrays adatas].
  rewrite bind_run, (get_adata_run _ _ _ _ Hobj). lazy beta iota.
  rewrite bind_run, (load_run _ _ _ _ Hx). lazy beta iota zeta.
  rewrite bind_run. unfold sc_tl_pca at 1.
  rewrite bind_run, (get_adata_run _ _ _ _ Hobj). lazy beta iota.
  rewrite bind_run, (load_run _ _ _ _ Hx). lazy beta iota.
  rewrite bind_run. unfold lift at 1.
  destruct (pca x (n_latent_of_shape x)) as [e|err]; [|done]. lazy beta iota.
  rewrite bind_run. unfold alloc at 1. lazy beta iota. cbn [arrays adatas].
  unfold obsm_setitem at 1.
  rewrite bind_run, (get_adata_run _ _ _ _ Hobj). lazy beta iota.
  unfold set_adata at 1. lazy beta iota. cbn [arrays adatas].
  set (obj1 := mk_adata (X obj) (obs obj)
                 (dict_setitem (obsm obj) "X_pca" (length arrs))).
  assert (<[adata := obj1]> ads !! adata = Some obj1) as Hobj1
    by by apply list_lookup_insert_eq.
  rewrite bind_run. unfold obsm_getitem at 1.
  rewrite bind_run, (get_adata_run _ _ _ _ Hobj1). lazy beta iota.
  unfold obj1 at 1. cbn [obsm]. rewrite assoc_dict_setitem.
  unfold mret, M_ret, ret. lazy beta iota.
  rewrite bind_run, (load_run _ _ _ _ (lookup_snoc_length arrs e [])).
  lazy beta iota.
  rewrite bind_run, (get_adata_run _ _ _ _ Hobj1). lazy beta iota.
  rewrite bind_run. unfold lift at 1. unfold obj1 at 1. cbn [obs].
  destruct (run_harmony e (obs obj) batch_key 20 300) as [z_corr|err]; [|done].
  lazy beta iota.
  rewrite bind_run. unfold alloc at 1. lazy beta iota. cbn [arrays adatas].
  unfold obsm_setitem.
  rewrite bind_run, (get_adata_run _ _ _ _ Hobj1). lazy beta iota.
  unfold set_adata. cbn [arrays adatas X obs obsm].
  rewrite list_insert_insert_eq. unfold obj1. cbn [X obs obsm].
  rewrite length_app. simpl. by rewrite Nat.add_1_r.
Qed.

(** A run of [harmony] that returns normally asked PCA for
    [min(shape) - 1] components of the feature matrix, ran the harmony
    iteration on that embedding with the batch key, 20 iterations and
    300 clusters, and stored the transpose of [Z_corr], a matrix with
    one row per column of [Z_corr], as a new array under
    [corrected_embed].  The dataset keeps its matrix, no earlier array
    is changed, and unless [corrected_embed] is 'X_pca' itself the PCA
    embedding stays in the slot 'X_pca'. *)
Theorem harmony_embedding adata batch_key corrected_embed (h h' : heap) obj x :
  adatas h !! adata = Some obj → arrays h !! X obj = Some x →
  harmony adata batch_key corrected_embed h = (Ok (), h') →
  ∃ e z_corr lp lz slots,
    pca x (n_latent_of_shape x) = Ok e
    ∧ run_harmony e (obs obj) batch_key 20 300 = Ok z_corr
    ∧ adatas h' !! adata = Some (mk_adata (X obj) (obs obj) slots)
    ∧ assoc corrected_embed slots = Some lz
    ∧ arrays h' !! lz = Some (transpose z_corr)
    ∧ nrows (transpose z_corr) = ncols z_corr
    ∧ (corrected_embed ≠ "X_pca" →
       assoc "X_pca" slots = Some lp ∧ arrays h' !! lp = Some e)
    ∧ (∀ l a, arrays h !! l = Some a → arrays h' !! l = Some a).
Proof.
  intros Hobj Hx Hrun. rewrite (harmony_run _ _ _ _ obj x Hobj Hx) in Hrun.
  assert (adata < length (adatas h)) as Hlt by by eapply lookup_lt_Some.
  destruct (pca x (n_latent_of_shape x)) as [e|err] eqn:Hpca; [|done].
  cbv zeta in Hrun.
  destruct (run_harmony e (obs obj) batch_key 20 300) as [z_corr|err] eqn:Hh;
    [|done].
  injection Hrun as <-.
  exists e, z_corr, (length (arrays h)), (S (length (arrays h))). eexists.
  cbn [arrays adatas]. split; [done|]. split; [done|]. repeat split.
  - by apply list_lookup_insert_eq.
  - apply assoc_dict_setitem.
  - replace (S (length (arrays h))) with (length (arrays h ++ [e]))
      by (rewrite length_app; simpl; lia).
    apply lookup_snoc_length.
  - apply transpose_shape.
  - rewrite assoc_dict_setitem_ne by done. apply assoc_dict_setitem.
  - rewrite <- app_assoc. apply lookup_snoc_length.
  - intros l a Hl. rewrite <- app_assoc, lookup_app_l; [done|].
    by eapply lookup_lt_Some.
Qed.

(** [harmony] is not all-or-nothing.  If PCA raises, nothing has
    changed; if the harmony iteration raises after PCA has succeeded,
    the dataset has already gained (or had replaced) its slot 'X_pca',
    which holds the PCA embedding. *)
Theorem harmony_failures adata batch_key corrected_embed (h : heap) obj x :
  adatas h !! adata = Some obj → arrays h !! X obj = Some x →
  (∀ err, pca x (n_latent_of_shape x) = Err err →
          harmony adata batch_key corrected_embed h = (Err err, h))
  ∧ (∀ e err, pca x (n_latent_of_shape x) = Ok e →
       run_harmony e (obs obj) batch_key 20 300 = Err err →
       ∃ h' slots,
         harmony adata batch_key corrected_embed h = (Err err, h')
         ∧ adatas h' !! adata = Some (mk_adata (X obj) (obs obj) slots)
         ∧ assoc "X_pca" slots = Some (length (arrays h))
         ∧ arrays h' !! length (arrays h) = Some e).
Proof.
  intros Hobj Hx. rewrite (harmony_run _ _ _ _ obj x Hobj Hx).
  assert (adata < length (adatas h)) as Hlt by by eapply lookup_lt_Some.
  split.
  - intros err ->. done.
  - intros e err -> Herr. cbv zeta. rewrite Herr. eexists _, _.
    split; [done|]. cbn [arrays adatas]. repeat split.
    + by apply list_lookup_insert_eq.
    + apply assoc_dict_setitem.
    + apply lookup_snoc_length.
Qed.

(** [trvaep] in one equation. *)
Lemma trvaep_run adata batch_key corrected_embed (h : heap) obj x :
  adatas h !! adata = Some obj → arrays h !! X obj = Some x →
  trvaep round adata batch_key corrected_embed h
  = match copy_obsm (arrays h) (S (length (arrays h))) (obsm obj) with
    | Err e => (Err e, h)
    | Ok (slots, news) =>
        let x32 := astype round Float32 x in
        let arrs1 := (arrays h ++ x :: news) ++ [x32] in
        let ads1 :=
          adatas h ++ [mk_adata (length (arrays h ++ x :: news)) (obs obj) slots] in
        match scib_trvaep x32 (obs obj) batch_key with
        | Err e => (Err e, mk_heap arrs1 ads1)
        | Ok out =>
            (Ok (),
             mk_heap (arrs1 ++ [out])
               (<[adata := mk_adata (X obj) (obs obj)
                             (dict_setitem (obsm obj) corrected_embed
                                (length arrs1))]> ads1))
        end
    end.
Proof.
  intros Hobj Hx. destruct h as [arrs ads]. simpl in Hobj, Hx.
  assert (adata < length ads) as Hlt by by eapply lookup_lt_Some.
  unfold trvaep. cbn [arrays adatas].
  rewrite bind_run. unfold copy at 1. cbn [arrays adatas]. rewrite Hobj, Hx.
  destruct (copy_obsm _ _ _) as [[slots news]|e]; [|done]. lazy beta iota.
  rewrite bind_run, (get_adata_run _ _ _ _ (lookup_snoc_length ads _ [])).
  lazy beta iota. cbn [X obs obsm].
  rewrite bind_run, (load_run _ _ _ _ (lookup_snoc_length arrs _ _)).
  lazy beta iota.
  rewrite bind_run. unfold alloc at 1. lazy beta iota. cbn [arrays adatas].
  rewrite bind_run. unfold set_adata at 1. lazy beta iota. cbn [arrays adatas].
  rewrite (insert_snoc_length ads).
  rewrite bind_run, (get_adata_run _ _ _ _ (lookup_snoc_length ads _ [])).
  lazy beta iota. cbn [X obs obsm].
  rewrite bind_run,
    (load_run _ _ _ _ (lookup_snoc_length (arrs ++ x :: news) _ [])).
  lazy beta iota. rewrite bind_run. unfold lift at 1.
  destruct (scib_trvaep _ _ _) as [out|e]; [|done]. lazy beta iota.
  rewrite bind_run. unfold alloc at 1. lazy beta iota. cbn [arrays adatas].
  unfold obsm_setitem. rewrite bind_run.
  erewrite get_adata_run; [|by rewrite lookup_app_l]. done.
Qed.

(** [trvaep] casts a copy: the matrix handed to the integration is the
    dataset's matrix cast to float32, while the dataset's own matrix
    and every other array keep their values and dtype whatever the
    outcome.  On a normal return the matrix of the integrated dataset
    is a new array under [corrected_embed]. *)
Theorem trvaep_on_copy adata batch_key corrected_embed (h h' : heap) obj x r :
  adatas h !! adata = Some obj → arrays h !! X obj = Some x →
  trvaep round adata batch_key corrected_embed h = (r, h') →
  (∀ l a, arrays h !! l = Some a → arrays h' !! l = Some a)
  ∧ (r = Ok () →
     ∃ out z slots,
       scib_trvaep (astype round Float32 x) (obs obj) batch_key = Ok out
       ∧ adtype (astype round Float32 x) = Float32
       ∧ length (arrays h) < z ∧ arrays h' !! z = Some out
       ∧ adatas h' !! adata = Some (mk_adata (X obj) (obs obj) slots)
       ∧ assoc corrected_embed slots = Some z).
Proof.
  intros Hobj Hx Hrun. rewrite (trvaep_run _ _ _ _ obj x Hobj Hx) in Hrun.
  assert (adata < length (adatas h)) as Hlt by by eapply lookup_lt_Some.
  assert (∀ (k : list ndarray) l a,
            arrays h !! l = Some a → (arrays h ++ k) !! l = Some a) as Hkeep.
  { intros k l a Hl. rewrite lookup_app_l; [done|]. by eapply lookup_lt_Some. }
  destruct (copy_obsm _ _ _) as [[slots news]|e].
  2: { injection Hrun as <- <-. by split. }
  cbv zeta in Hrun.
  destruct (scib_trvaep _ _ _) as [out|e] eqn:Hout.
  2: { injection Hrun as <- <-. split; [|done]. intros l a Hl. simpl.
       rewrite <- app_assoc. auto. }
  injection Hrun as <- <-. split.
  - intros l a Hl. simpl. rewrite <- !app_assoc. auto.
  - intros _.
    exists out, (length ((arrays h ++ x :: news) ++ [astype round Float32 x])).
    eexists. cbn [arrays adatas]. split; [done|]. split; [done|]. repeat split.
    + rewrite !length_app. simpl. lia.
    + apply lookup_snoc_length.
    + apply list_lookup_insert_eq. rewrite length_app. lia.
    + apply assoc_dict_setitem.
Qed.

End MoreUnitFacts.

(** ** The parameter sweep *)

Lemma dict_setitem_same {A} (d : list (string * A)) k v :
  assoc k d = Some v → dict_setitem d k v = d.
Proof.
  induction d as [|[k0 v0] d IH]; simpl; [done|].
  destruct (String.eqb k k0) eqn:Hk.
  - apply String.eqb_eq in Hk as ->. by intros [= ->].
  - intros H. by rewrite IH.
Qed.

Lemma dict_setitem_set_twice {A} (d : list (string * A)) k v k' v' :
  k ≠ k' →
  dict_setitem (dict_setitem (dict_setitem (dict_setitem d k v) k' v') k v) k' v'
  = dict_setitem (dict_setitem d k v) k' v'.
Proof.
  intros Hne.
  rewrite (dict_setitem_same (dict_setitem (dict_setitem d k v) k' v') k v).
  - apply dict_setitem_same, assoc_dict_setitem.
  - rewrite assoc_dict_setitem_ne by done. apply assoc_dict_setitem.
Qed.

Lemma dumped_configs_S n config :
  dumped_configs (S n) config
  = match set_params config with
    | Err e => Err e
    | Ok config' =>
        match dumped_configs n config' with
        | Ok docs => Ok (config' :: docs)
        | Err e => Err e
        end
    end.
Proof. done. Qed.

(** Every iteration of the sweep runs with the same configuration: the
    generator is never consulted, and whatever [n_opts] is, each
    document dumped is the template with 'sphering_lambda' and
    'epsilon_mad' set to the two constants and every other member as
    in the template. *)
Theorem explore_params_repeats_one_config n_opts members :
  let swept :=
    dict_setitem (dict_setitem members "sphering_lambda" (JNum lambda_const))
      "epsilon_mad" (JNum epsilon_mad) in
  dumped_configs n_opts (JObject members) = Ok (replicate n_opts (JObject swept))
  ∧ assoc "sphering_lambda" swept = Some (JNum lambda_const)
  ∧ assoc "epsilon_mad" swept = Some (JNum epsilon_mad)
  ∧ ∀ k, k ≠ "sphering_lambda" → k ≠ "epsilon_mad" →
         assoc k swept = assoc k members.
Proof.
  intros swept. split; [|split; [|split]].
  - assert (set_params (JObject members) = Ok (JObject swept)) as H1 by done.
    assert (set_params (JObject swept) = Ok (JObject swept)) as H2.
    { unfold set_params, swept. simpl. by rewrite dict_setitem_set_twice. }
    destruct n_opts as [|n]; [done|]. rewrite dumped_configs_S, H1.
    assert (dumped_configs n (JObject swept) = Ok (replicate n (JObject swept)))
      as ->; [|done].
    induction n as [|n IH]; [done|]. by rewrite dumped_configs_S, H2, IH.
  - unfold swept. rewrite assoc_dict_setitem_ne by done. apply assoc_dict_setitem.
  - apply assoc_dict_setitem.
  - intros k Hk1 Hk2. unfold swept. by rewrite !assoc_dict_setitem_ne.
Qed.

(** ** Concrete runs *)

(** Unless the strict library is named, runs use the lenient one. *)
#[local] Existing Instance lenient_zca.
#[local] Existing Instance stub_integrators.

Lemma sphering_invalid_mode_witness :
  sphering (zca := lenient_zca) exact "data.parquet" "invalid" (Num 1)
    "Metadata_Type" [CStr "negcon"] "out.parquet" "spherer" demo_world
  = (Err (ValueError mode_message), demo_world).
Proof. apply sphering_invalid_mode; discriminate. Defined.



Lemma sphering_output_witness :
  ∃ meta vals features sp col train sp' t,
    fs demo_world !! "data.parquet" = Some (FDataset meta vals features)
    ∧ make_spherer "cov" (Num 1) = Ok sp
    ∧ frame_getitem meta "Metadata_Type" = Ok col
    ∧ mask_rows vals (isin col [CStr "negcon"]) = Ok train
    ∧ fit sp train = Ok sp'
    ∧ transform sp' vals = Ok t
    ∧ EvMergeParquet meta (astype exact Float32 t) features "out.parquet"
      ∈ log demo_run.2
    ∧ nrows (astype exact Float32 t) = nrows vals
    ∧ ncols (astype exact Float32 t) = ncols vals
    ∧ ("spherer.npz" ≠ "out.parquet" →
       fs demo_run.2 !! "out.parquet"
       = Some (FDataset meta (astype exact Float32 t) features)).
Proof.
  apply (sphering_output (zca := lenient_zca) exact "data.parquet" "cov" (Num 1)
           "Metadata_Type" [CStr "negcon"] "out.parquet" "spherer"
           demo_world demo_run.2).
  reflexivity.
Defined.

Lemma transform_step_float32_witness :
  adtype (astype exact Float32 (mk_ndarray Float64 2 (rows demo_vals))) = Float32.
Proof.
  apply (transform_step_float32 (zca := lenient_zca) exact
           (mk_stub false (Num 1) true : @Spherer lenient_zca) demo_vals demo_world
           (mk_world (fs demo_world)
                     [@EvTransform lenient_zca (mk_stub false (Num 1) true)
                                   demo_vals])).
  reflexivity.
Defined.


Example select_best_spec_example :
  log (select_best stable_sorter ["a.map"; "b.map"; "c.map"]
         ["a.parquet"; "b.parquet"; "c.parquet"] "best.parquet" sweep_world).2
  = [EvReadParquet "a.map"; EvReadParquet "b.map"; EvReadParquet "c.map";
     EvCopy "b.parquet" "best.parquet"].
Proof. vm_compute. reflexivity. Qed.

(** Two datasets tied at 0.7: a stable sort selects the later one, a
    sort that meets the same contract but reverses ties the earlier. *)
Example select_best_tie_example :
  log (select_best stable_sorter ["a.map"; "b.map"]
         ["a.parquet"; "b.parquet"] "best.parquet" tie_world).2
  = [EvReadParquet "a.map"; EvReadParquet "b.map";
     EvCopy "b.parquet" "best.parquet"].
Proof. vm_compute. reflexivity. Qed.

Example select_best_tie_reversed :
  log (select_best reversing_sorter ["a.map"; "b.map"]
         ["a.parquet"; "b.parquet"] "best.parquet" tie_world).2
  = [EvReadParquet "a.map"; EvReadParquet "b.map";
     EvCopy "a.parquet" "best.parquet"].
Proof. vm_compute. reflexivity. Qed.


Lemma select_best_fails_witness :
  ∃ e reads,
    select_best stable_sorter ["b.map"; "bad.map"] ["b.parquet"; "a.parquet"]
      "best.parquet" nan_world
    = (Err e, after_reads nan_world reads).
Proof.
  apply (select_best_fails stable_sorter ["b.map"; "bad.map"]
           ["b.parquet"; "a.parquet"] "best.parquet" nan_world).
  right. right. exists 1, "bad.map", "a.parquet". split; [reflexivity|].
  eexists _, _. repeat split; reflexivity.
Defined.

(** A map file without the score column that is not paired with a
    dataset is never read: the selector copies a dataset. *)
Lemma select_best_unpaired_map_ignored :
  let run :=
    select_best stable_sorter ["b.map"; "bad.map"] ["b.parquet"]
      "best.parquet" nan_world in
  "bad.map" ∈ ["b.map"; "bad.map"]
  ∧ lacks_score_column (fs nan_world) "bad.map"
  ∧ run.1 = Ok ()
  ∧ log run.2 = [EvReadParquet "b.map"; EvCopy "b.parquet" "best.parquet"]
  ∧ fs run.2 !! "best.parquet" = Some (demo_dataset 2).
Proof.
  repeat split; try (vm_compute; reflexivity).
  - set_solver.
  - eexists _, _. repeat split; reflexivity.
Qed.

(** The registry's 'sphering' entry and [scvi] on a two-row dataset. *)
Lemma sphering_unit_is_identity_witness :
  ∃ p h',
    dict_getitem (get_method_map "Metadata_Plate" "Metadata_Type") "sphering" = Ok p
    ∧ call_partial p 0 "X_emb" demo_heap = (Ok (), h')
    ∧ arrays h' = arrays demo_heap
    ∧ ∃ slots, adatas h' !! 0 = Some (mk_adata 0 demo_meta slots)
               ∧ assoc "X_emb" slots = Some 0.
Proof.
  apply (sphering_unit_is_identity "Metadata_Plate" "Metadata_Type" 0 "X_emb"
           demo_heap (mk_adata 0 demo_meta [])).
  reflexivity.
Defined.


Example scvi_demo_returns : scvi_run_demo.1 = Ok ().
Proof. vm_compute. reflexivity. Qed.

(** ** Further concrete runs *)

#[local] Existing Instance stub_embedders.


Lemma sphering_missing_column_witness :
  sphering exact "data.parquet" "cov" (Num 1) "Metadata_Well" [CStr "A01"]
    "out.parquet" "spherer" demo_world
  = (Err (KeyError "Metadata_Well"),
     mk_world (fs demo_world) (log demo_world ++ [EvSplitParquet "data.parquet"])).
Proof.
  apply (sphering_missing_column exact "data.parquet" "cov" (Num 1)
           "Metadata_Well" [CStr "A01"] "out.parquet" "spherer" demo_world
           (mk_stub false (Num 1) false : @Spherer lenient_zca)
           demo_meta demo_vals demo_features);
    reflexivity.
Defined.

Lemma sphering_library_error_witness :
  let run :=
    sphering (zca := strict_zca) exact "data.parquet" "cov" (Num 1)
      "Metadata_Type" [CStr "absent"] "out.parquet" "spherer" demo_world in
  let sp : @Spherer strict_zca := mk_stub false (Num 1) false in
  (∀ e, fit sp (no_rows demo_vals) = Err e →
        run = (Err e, mk_world (fs demo_world)
                 (log demo_world
                  ++ [EvSplitParquet "data.parquet"; EvFit sp (no_rows demo_vals)])))
  ∧ (∀ sp' e, fit sp (no_rows demo_vals) = Ok sp' →
        transform sp' demo_vals = Err e →
        run = (Err e, mk_world (fs demo_world)
                 (log demo_world
                  ++ [EvSplitParquet "data.parquet"; EvFit sp (no_rows demo_vals);
                      EvTransform sp' demo_vals]))).
Proof.
  apply (sphering_library_error (zca := strict_zca) exact "data.parquet" "cov"
           (Num 1) "Metadata_Type" [CStr "absent"] "out.parquet" "spherer"
           demo_world (mk_stub false (Num 1) false : @Spherer strict_zca)
           demo_meta demo_vals
           demo_features [CStr "negcon"; CStr "trt"] (no_rows demo_vals));
    reflexivity.
Defined.


Lemma sphering_same_output_path_witness :
  ∃ sp', fs clash_run.2 !! "out.npz" = Some (FBlob sp')
         ∧ EvSavez "out" sp' ∈ log clash_run.2.
Proof.
  apply (sphering_same_output_path exact "data.parquet" "cov" (Num 1)
           "Metadata_Type" [CStr "negcon"] "out.npz" "out" demo_world clash_run.2);
    reflexivity.
Defined.

Lemma sphering_training_rows_witness :
  let col := [CStr "negcon"; CStr "trt"] in
  let train := mk_ndarray Float64 2 [[Num 3; Num 4]] in
  length col = nrows demo_vals
  ∧ adtype train = adtype demo_vals ∧ ncols train = ncols demo_vals
  ∧ rows train = matching_rows demo_vals col [CStr "trt"]
  ∧ rows train `sublist_of` rows demo_vals.
Proof.
  apply (sphering_training_rows demo_vals [CStr "negcon"; CStr "trt"] [CStr "trt"]).
  reflexivity.
Defined.

Lemma select_best_frame_witness :
  (∀ p, p ≠ "best.parquet" → fs sweep_run.2 !! p = fs sweep_world !! p)
  ∧ (sweep_run.1 ≠ Ok () → fs sweep_run.2 = fs sweep_world)
  ∧ (sweep_run.1 = Ok () →
     ∃ i m best f,
       zip ["a.map"; "b.map"; "c.map"] ["a.parquet"; "b.parquet"; "c.parquet"] !! i
       = Some (m, best)
       ∧ fs sweep_world !! best = Some f ∧ best ≠ "best.parquet"
       ∧ fs sweep_run.2 = <["best.parquet" := f]> (fs sweep_world)).
Proof.
  apply (select_best_frame reversing_sorter ["a.map"; "b.map"; "c.map"]
           ["a.parquet"; "b.parquet"; "c.parquet"] "best.parquet"
           sweep_world sweep_run.2 sweep_run.1).
  reflexivity.
Defined.

Lemma select_best_maximal_witness :
  let pairs :=
    zip ["a.map"; "b.map"; "c.map"] ["a.parquet"; "b.parquet"; "c.parquet"] in
  let xs := [Num (2 # 10); Num (18 # 20); Num (5 # 10)] in
  ∃ i m best x,
    pairs !! i = Some (m, best) ∧ xs !! i = Some x
    ∧ (∀ j x', xs !! j = Some x' → score_le x' x = true)
    ∧ log sweep_run.2
      = log sweep_world ++ map EvReadParquet pairs.*1
        ++ [EvCopy best "best.parquet"].
Proof.
  apply (select_best_maximal reversing_sorter ["a.map"; "b.map"; "c.map"]
           ["a.parquet"; "b.parquet"; "c.parquet"] "best.parquet" sweep_world
           [Num (2 # 10); Num (18 # 20); Num (5 # 10)]).
  - repeat constructor.
  - apply (bool_decide_unpack _). vm_compute. exact I.
  - discriminate.
Defined.


Lemma select_best_sorter_irrelevant_witness :
  select_best stable_sorter ["a.map"; "b.map"; "c.map"]
    ["a.parquet"; "b.parquet"; "c.parquet"] "best.parquet" sweep_world
  = select_best reversing_sorter ["a.map"; "b.map"; "c.map"]
      ["a.parquet"; "b.parquet"; "c.parquet"] "best.parquet" sweep_world.
Proof.
  apply (select_best_sorter_irrelevant stable_sorter reversing_sorter
           ["a.map"; "b.map"; "c.map"] ["a.parquet"; "b.parquet"; "c.parquet"]
           "best.parquet" sweep_world
           [Num (2 # 10); Num (18 # 20); Num (5 # 10)]).
  - repeat constructor.
  - apply (bool_decide_unpack _). vm_compute. exact I.
  - intros [|[|[|i]]] [|[|[|j]]] x y Hx Hy Hne; simpl in Hx, Hy;
      try discriminate; try done;
      injection Hx as <-; injection Hy as <-; reflexivity.
Defined.

Lemma select_best_last_score_counts_witness :
  let pairs :=
    [("b.map", "a.parquet"); ("c.map", "b.parquet"); ("a.map", "a.parquet")] in
  let scores := [("a.parquet", Num (2 # 10)); ("b.parquet", Num (5 # 10))] in
  NoDup scores.*1
  ∧ (∀ p, p ∈ scores.*1 ↔ p ∈ pairs.*2)
  ∧ ∀ i m p x,
      pairs !! i = Some (m, p) → read_score (fs sweep_world) m = Ok x →
      (∀ j m', i < j → pairs !! j ≠ Some (m', p)) →
      assoc p scores = Some x.
Proof.
  apply (select_best_last_score_counts (fs sweep_world)
           [("b.map", "a.parquet"); ("c.map", "b.parquet"); ("a.map", "a.parquet")]
           [("a.parquet", Num (2 # 10)); ("b.parquet", Num (5 # 10))]).
  reflexivity.
Defined.

Lemma select_best_first_error_witness :
  select_best stable_sorter ["b.map"; "bad.map"; "a.map"]
    ["b.parquet"; "a.parquet"; "c.parquet"] "best.parquet" nan_world
  = (Err (KeyError "mean_average_precision"),
     after_reads nan_world ([("b.map", "b.parquet")].*1 ++ ["bad.map"])).
Proof.
  apply (select_best_first_error stable_sorter ["b.map"; "bad.map"; "a.map"]
           ["b.parquet"; "a.parquet"; "c.parquet"] "best.parquet" nan_world
           [("b.map", "b.parquet")] "bad.map" "a.parquet"
           [("a.map", "c.parquet")] [Num (5 # 10)]).
  - reflexivity.
  - repeat constructor.
  - reflexivity.
Defined.


Lemma nan_poisons_shift_witness :
  array_min nan_counts = Ok NaN
  ∧ Forall (λ v, v = NaN) (entries (array_sub nan_counts NaN)).
Proof.
  apply (nan_poisons_shift nan_counts). right. left.
Defined.

Lemma get_method_map_entries_witness :
  let p := mk_partial fn_scvi "Metadata_Plate" (Some "Metadata_Type") in
  kw_batch_key p = "Metadata_Plate"
  ∧ kw_label_key p
    = (if String.eqb "scvi" "scvi" then Some "Metadata_Type" else None)
  ∧ (pfunc p = fn_identity ↔ "scvi" = "sphering")
  ∧ (pfunc p = fn_scvi ↔ "scvi" = "scvi")
  ∧ pfunc p ≠ fn_trvaep.
Proof.
  apply (get_method_map_entries "Metadata_Plate" "Metadata_Type" "scvi").
  vm_compute. reflexivity.
Defined.


Lemma identity_frame_witness :
  ∃ h' slots,
    identity 0 "Metadata_Plate" "X_emb" demo_heap = (Ok (), h')
    ∧ arrays h' = arrays demo_heap
    ∧ adatas h' !! 0 = Some (mk_adata 0 demo_meta slots)
    ∧ (∀ k, k ≠ "X_emb" → assoc k slots = assoc k [])
    ∧ (is_Some (assoc "X_emb" (@nil (string * nat))) →
       slots.*1 = (@nil (string * nat)).*1)
    ∧ (∀ r, r ≠ 0 → adatas h' !! r = adatas demo_heap !! r).
Proof.
  apply (identity_frame 0 "Metadata_Plate" "X_emb" demo_heap
           (mk_adata 0 demo_meta [])).
  reflexivity.
Defined.

Lemma identity_idempotent_witness :
  let h1 := (identity 0 "Metadata_Plate" "X_emb" demo_heap).2 in
  identity 0 "Metadata_Plate" "X_emb" h1 = (Ok (), h1).
Proof.
  apply (identity_idempotent 0 "Metadata_Plate" "X_emb" demo_heap
           (mk_adata 0 demo_meta [])).
  reflexivity.
Defined.

Lemma scvi_error_leaves_dataset_witness :
  (entries (mk_ndarray Float32 2 []) = [] → scvi_empty_demo.1 ≠ Ok ())
  ∧ (scvi_empty_demo.1 ≠ Ok () →
     adatas scvi_empty_demo.2 !! 0
     = Some (mk_adata 0 (mk_frame 0 [("Metadata_Plate", []); ("Metadata_Type", [])])
               [])).
Proof.
  apply (scvi_error_leaves_dataset 0 "Metadata_Plate" "X_scvi" "Metadata_Type"
           empty_heap scvi_empty_demo.2
           (mk_adata 0 (mk_frame 0 [("Metadata_Plate", []); ("Metadata_Type", [])]) [])
           (mk_ndarray Float32 2 []) scvi_empty_demo.1);
    reflexivity.
Defined.

Lemma harmony_embedding_witness :
  ∃ e z_corr lp lz slots,
    pca demo_counts (n_latent_of_shape demo_counts) = Ok e
    ∧ run_harmony e demo_meta "Metadata_Plate" 20 300 = Ok z_corr
    ∧ adatas harmony_demo.2 !! 0 = Some (mk_adata 0 demo_meta slots)
    ∧ assoc "X_harmony" slots = Some lz
    ∧ arrays harmony_demo.2 !! lz = Some (transpose z_corr)
    ∧ nrows (transpose z_corr) = ncols z_corr
    ∧ ("X_harmony" ≠ "X_pca" →
       assoc "X_pca" slots = Some lp ∧ arrays harmony_demo.2 !! lp = Some e)
    ∧ (∀ l a, arrays demo_heap !! l = Some a → arrays harmony_demo.2 !! l = Some a).
Proof.
  apply (harmony_embedding 0 "Metadata_Plate" "X_harmony" demo_heap
           harmony_demo.2 (mk_adata 0 demo_meta []) demo_counts);
    reflexivity.
Defined.

Lemma harmony_failures_witness :
  (∀ err, pca demo_counts (n_latent_of_shape demo_counts) = Err err →
          harmony 0 "Absent" "X_harmony" demo_heap = (Err err, demo_heap))
  ∧ (∀ e err, pca demo_counts (n_latent_of_shape demo_counts) = Ok e →
       run_harmony e demo_meta "Absent" 20 300 = Err err →
       ∃ h' slots,
         harmony 0 "Absent" "X_harmony" demo_heap = (Err err, h')
         ∧ adatas h' !! 0 = Some (mk_adata 0 demo_meta slots)
         ∧ assoc "X_pca" slots = Some (length (arrays demo_heap))
         ∧ arrays h' !! length (arrays demo_heap) = Some e).
Proof.
  apply (harmony_failures 0 "Absent" "X_harmony" demo_heap
           (mk_adata 0 demo_meta []) demo_counts);
    reflexivity.
Defined.

Lemma trvaep_on_copy_witness :
  (∀ l a, arrays demo_heap !! l = Some a → arrays trvaep_demo.2 !! l = Some a)
  ∧ (trvaep_demo.1 = Ok () →
     ∃ out z slots,
       scib_trvaep (astype exact Float32 demo_counts) demo_meta "Metadata_Plate"
       = Ok out
       ∧ adtype (astype exact Float32 demo_counts) = Float32
       ∧ length (arrays demo_heap) < z ∧ arrays trvaep_demo.2 !! z = Some out
       ∧ adatas trvaep_demo.2 !! 0 = Some (mk_adata 0 demo_meta slots)
       ∧ assoc "X_trvaep" slots = Some z).
Proof.
  apply (trvaep_on_copy exact 0 "Metadata_Plate" "X_trvaep" demo_heap
           trvaep_demo.2 (mk_adata 0 demo_meta []) demo_counts trvaep_demo.1);
    reflexivity.
Defined.

(** With the key of an absent column the harmony iteration of the
    stand-in raises, and the dataset is left with the slot 'X_pca'. *)
Example harmony_leaves_pca_slot :
  let run := harmony 0 "Absent" "X_harmony" demo_heap in
  run.1 = Err (KeyError "Absent")
  ∧ (obsm <$> adatas run.2 !! 0) = Some [("X_pca", 1)].
Proof. split; vm_compute; reflexivity. Qed.

